(** * The API client's request pipeline: [RateLimiter] and [APIClient]

    A shallow embedding of [src/api_client.py].

    - Wall-clock readings ([time.time()]) and durations are exact rationals.
    - Python objects that are mutated in place ([RateLimiter.requests]) are
      threaded explicitly: a method takes [self] and returns the new [self].
    - The outside world (clock, transport, sleeps) is an explicit [World]
      that every effectful operation transforms.  The clock moves when the
      client sleeps and while a transport call is under way; the statements
      in between take no time.
    - [except Exception] catches whatever the transport or the parser
      raises; interrupts and cancellations are outside the model. *)

From Stdlib Require Import QArith Qminmax Lqa ZArith List String Ascii Bool Lia.
From stdpp Require Import gmap strings.
Import ListNotations.
Open Scope Z_scope.
Set Warnings "-register-all".

(** ** Python built-ins used by the client *)

(** [x < y] on clock readings, as a boolean. *)
Definition Qltb (x y : Q) : bool := negb (Qle_bool y x).

(** [max(a, b)]: the first argument wins ties. *)
Definition py_max (a b : Q) : Q := if Qltb a b then b else a.

(** [min(xs)] of a non-empty list [x :: xs]: the first minimal element. *)
Definition py_min (x : Q) (xs : list Q) : Q :=
  fold_left (fun m y => if Qltb y m then y else m) xs x.

(** A raised exception: its class and its [str(e)].  Two classes are told
    apart by the client: [_parse_sync_response] catches
    [json.JSONDecodeError] only, [_make_request] catches every [Exception]. *)
Inductive exc_type := JSONDecodeError | OtherException.

Record raised := Raised { exc : exc_type; exc_str : string }.

(** ** [class RateLimiter] *)

Module RateLimiter.

Record t := mk {
  max_requests : Z;
  time_window : Z;
  requests : list Q
}.

(** [__init__]: stores both parameters as given; returns in [inr], the
    exceptional outcome would be [inl]. *)
Definition __init__ (max_requests time_window : Z) : raised + t :=
  inr (mk max_requests time_window []).

(** [can_proceed], with [now] the value read from [time.time()]. *)
Definition can_proceed (now : Q) (self : t) : bool * t :=
  let requests' :=
    List.filter
      (fun req_time => Qltb (now - req_time) (inject_Z (time_window self)))
      (requests self) in
  if Z.of_nat (length requests') <? max_requests self
  then (true, mk (max_requests self) (time_window self) (requests' ++ [now]))
  else (false, mk (max_requests self) (time_window self) requests').

(** [wait_time], with [now] the value read from [time.time()]. *)
Definition wait_time (now : Q) (self : t) : Q * t :=
  match requests self with
  | [] => (0%Q, self)
  | r :: rs =>
      let oldest_request := py_min r rs in
      (py_max 0 (inject_Z (time_window self) - (now - oldest_request)), self)
  end.

(** Successive calls of [can_proceed], one per clock reading. *)
Fixpoint can_proceed_seq (nows : list Q) (self : t) : list bool * t :=
  match nows with
  | [] => ([], self)
  | now :: rest =>
      let (b, self1) := can_proceed now self in
      let (bs, self2) := can_proceed_seq rest self1 in
      (b :: bs, self2)
  end.

End RateLimiter.

(** ** Values exchanged with the HTTP libraries *)

(** Decoded JSON, as [response.json()] returns it. *)
Inductive json :=
| JNull
| JBool (b : bool)
| JNum (n : Z)
| JStr (s : string)
| JArr (items : list json)
| JObj (members : list (string * json)).

(** [APIResponse.data]: a decoded document or the raw text of the body. *)
Inductive body :=
| Structured (j : json)
| Text (s : string).

(** The response object handed back by [aiohttp] or [requests]: the status,
    the headers (looked up by their canonical name), the body as text, and
    what [json()] does with the body: it returns a document or raises. *)
Module Response.
Record t := mk {
  status : Z;
  headers : gmap string string;
  text : string;
  json_ : raised + json
}.
End Response.

(** The arguments of [session.request] / [requests.request]. *)
Module Request.
Record t := mk {
  method : string;
  url : string;
  json_ : option json;
  headers : gmap string string;
  params : option json;
  timeout : option Z
}.
End Request.

(** [@dataclass class APIResponse] *)
Module APIResponse.
Record t := mk {
  status_code : Z;
  data : option body;
  headers : gmap string string;
  response_time : Q;
  success : bool;
  error : option string
}.
End APIResponse.

(** ** The world outside the client *)

(** What one transport call does: it takes [took] seconds and then either
    raises or returns a response object. *)
Inductive outcome :=
| Raises (e : raised)
| Returns (r : Response.t).

Record reply := Reply { took : Q; result : outcome }.

(** A transport answers its [n]-th call (counted from 0) for a request. *)
Definition transport := nat -> Request.t -> reply.

Inductive event :=
| time_sleep (seconds : Q)
| asyncio_sleep (seconds : Z)
| request (at_time : Q) (req : Request.t).

Record World := mkWorld {
  clock : Q;
  calls : nat;
  trace : list event
}.

(** [time.sleep(d)] *)
Definition do_time_sleep (d : Q) (w : World) : World :=
  mkWorld (clock w + d)%Q (calls w) (trace w ++ [time_sleep d]).

(** [await asyncio.sleep(d)] *)
Definition do_asyncio_sleep (d : Z) (w : World) : World :=
  mkWorld (clock w + inject_Z d)%Q (calls w) (trace w ++ [asyncio_sleep d]).

(** One call of the HTTP library. *)
Definition send (tr : transport) (req : Request.t) (w : World) : outcome * World :=
  let r := tr (calls w) req in
  (result r,
   mkWorld (clock w + took r)%Q (S (calls w)) (trace w ++ [request (clock w) req])).

(** ** String helpers: [str.rstrip], [str.lstrip], [in] *)

Fixpoint lstrip (c : ascii) (s : string) : string :=
  match s with
  | EmptyString => EmptyString
  | String a s' => if Ascii.eqb a c then lstrip c s' else s
  end.

Fixpoint rstrip (c : ascii) (s : string) : string :=
  match s with
  | EmptyString => EmptyString
  | String a s' =>
      match rstrip c s' with
      | EmptyString => if Ascii.eqb a c then EmptyString else String a EmptyString
      | r => String a r
      end
  end.

(** [needle in hay] *)
Fixpoint contains (needle hay : string) : bool :=
  String.prefix needle hay ||
  match hay with
  | EmptyString => false
  | String _ hay' => contains needle hay'
  end.

(** [range(n)] *)
Definition range (n : Z) : list Z := map Z.of_nat (seq 0 (Z.to_nat n)).

(** ** [class APIClient] *)

Module APIClient.

(** The [aiohttp.ClientSession] opened by [__aenter__]. *)
Record ClientSession := mkSession {
  session_timeout : Z;
  session_headers : gmap string string
}.

Record t := mk {
  base_url : string;
  timeout : Z;
  retries : Z;
  auth_token : option string;
  rate_limiter : RateLimiter.t;
  session : option ClientSession;
  default_headers : gmap string string
}.

Definition set_rate_limiter (self : t) (rl : RateLimiter.t) : t :=
  mk (base_url self) (timeout self) (retries self) (auth_token self) rl
     (session self) (default_headers self).

Definition base_headers : gmap string string :=
  <["Content-Type" := "application/json"]>
    (<["Accept" := "application/json"]>
      (<["User-Agent" := "TaaP-Test-Client/1.0"]> ∅)).

Definition __init__ (base_url : string) (timeout retries rate_limit : Z)
    (auth_token : option string) : raised + t :=
  match RateLimiter.__init__ rate_limit 60 with
  | inl e => inl e
  | inr limiter =>
      inr (mk (rstrip "/" base_url) timeout retries auth_token limiter None
             (match auth_token with
              | Some (String a tok) =>
                  <["Authorization" := "Bearer " +:+ String a tok]> base_headers
              | _ => base_headers
              end))
  end.

Definition __aenter__ (self : t) : t :=
  mk (base_url self) (timeout self) (retries self) (auth_token self)
     (rate_limiter self)
     (Some (mkSession (timeout self) (default_headers self)))
     (default_headers self).

Definition _apply_rate_limit (self : t) (w : World) : t * World :=
  let (proceed, limiter) := RateLimiter.can_proceed (clock w) (rate_limiter self) in
  if negb proceed then
    let (wait_time, limiter') := RateLimiter.wait_time (clock w) limiter in
    if Qltb 0 wait_time
    then (set_rate_limiter self limiter', do_time_sleep wait_time w)
    else (set_rate_limiter self limiter', w)
  else (set_rate_limiter self limiter, w).

Definition content_type (response : Response.t) : string :=
  default ""%string (Response.headers response !! "Content-Type"%string).

Definition _parse_response (response : Response.t) : raised + body :=
  if contains "application/json" (content_type response) then
    match Response.json_ response with
    | inl e => inl e
    | inr j => inr (Structured j)
    end
  else inr (Text (Response.text response)).

Definition _parse_sync_response (response : Response.t) : raised + body :=
  if contains "application/json" (content_type response) then
    match Response.json_ response with
    | inr j => inr (Structured j)
    | inl (Raised JSONDecodeError _) => inr (Text (Response.text response))
    | inl e => inl e
    end
  else inr (Text (Response.text response)).

(** [f"{self.base_url}/{endpoint.lstrip('/')}"] *)
Definition target_url (self : t) (endpoint : string) : string :=
  base_url self +:+ "/" +:+ lstrip "/" endpoint.

Section Execute.

Variable tr : transport.

(** The body of the [try] of one loop iteration: [inr] is the value of the
    [return], [inl] the exception handed to the [except] clause. *)
Definition try_request (self : t) (req : Request.t) (start_time : Q) (w : World)
    : (raised + APIResponse.t) * t * World :=
  let (self, w) := _apply_rate_limit self w in
  match session self with
  | Some _ =>
      let (out, w) := send tr req w in
      match out with
      | Raises e => (inl e, self, w)
      | Returns response =>
          match _parse_response response with
          | inl e => (inl e, self, w)
          | inr response_data =>
              let response_time := (clock w - start_time)%Q in
              (inr (APIResponse.mk (Response.status response) (Some response_data)
                      (Response.headers response) response_time
                      (Response.status response <? 400) None), self, w)
          end
      end
  | None =>
      let (out, w) :=
        send tr (Request.mk (Request.method req) (Request.url req)
                   (Request.json_ req) (Request.headers req) (Request.params req)
                   (Some (timeout self))) w in
      match out with
      | Raises e => (inl e, self, w)
      | Returns response =>
          let response_time := (clock w - start_time)%Q in
          match _parse_sync_response response with
          | inl e => (inl e, self, w)
          | inr response_data =>
              (inr (APIResponse.mk (Response.status response) (Some response_data)
                      (Response.headers response) response_time
                      (Response.status response <? 400) None), self, w)
          end
      end
  end.

(** [for attempt in ...: try: ... except Exception as e: ...], followed by
    the statements after the loop. *)
Fixpoint retry_loop (attempts : list Z) (last_error : option string)
    (self : t) (req : Request.t) (start_time : Q) (w : World)
    : APIResponse.t * t * World :=
  match attempts with
  | [] =>
      let response_time := (clock w - start_time)%Q in
      (APIResponse.mk 0 None ∅ response_time false last_error, self, w)
  | attempt :: rest =>
      match try_request self req start_time w with
      | (inr response, self, w) => (response, self, w)
      | (inl e, self, w) =>
          let last_error := Some (exc_str e) in
          let w := if attempt <? retries self
                   then do_asyncio_sleep (2 ^ attempt) w else w in
          retry_loop rest last_error self req start_time w
      end
  end.

Definition _make_request (self : t) (method endpoint : string)
    (data : option json) (headers : option (gmap string string))
    (params : option json) (w : World) : APIResponse.t * t * World :=
  let url := target_url self endpoint in
  let merged_headers := default ∅ headers ∪ default_headers self in
  let start_time := clock w in
  retry_loop (range (retries self + 1)) None self
    (Request.mk method url data merged_headers params None) start_time w.

Definition get (self : t) (endpoint : string) (params : option json)
    (headers : option (gmap string string)) :=
  _make_request self "GET" endpoint None headers params.

Definition post (self : t) (endpoint : string) (data : option json)
    (headers : option (gmap string string)) :=
  _make_request self "POST" endpoint data headers None.

Definition put (self : t) (endpoint : string) (data : option json)
    (headers : option (gmap string string)) :=
  _make_request self "PUT" endpoint data headers None.

Definition patch (self : t) (endpoint : string) (data : option json)
    (headers : option (gmap string string)) :=
  _make_request self "PATCH" endpoint data headers None.

Definition delete (self : t) (endpoint : string)
    (headers : option (gmap string string)) :=
  _make_request self "DELETE" endpoint None headers None.

(** [asyncio.run] drives the same coroutine to completion. *)
Definition sync_get (self : t) (endpoint : string) (params : option json)
    (headers : option (gmap string string)) :=
  _make_request self "GET" endpoint None headers params.

Definition sync_post (self : t) (endpoint : string) (data : option json)
    (headers : option (gmap string string)) :=
  _make_request self "POST" endpoint data headers None.

End Execute.

End APIClient.

(** ** Reading executions *)

(** The request as the HTTP library receives it: only the blocking call is
    given the per-attempt timeout, the session carries its own. *)
Definition wire_request (self : APIClient.t) (req : Request.t) : Request.t :=
  match APIClient.session self with
  | Some _ => req
  | None =>
      Request.mk (Request.method req) (Request.url req) (Request.json_ req)
        (Request.headers req) (Request.params req) (Some (APIClient.timeout self))
  end.

(** What an attempt makes of the transport's answer: the exception that
    reaches the [except] clause, or the response with its parsed body. *)
Definition attempt_outcome (self : APIClient.t) (out : outcome)
    : raised + Response.t * body :=
  match out with
  | Raises e => inl e
  | Returns response =>
      match (match APIClient.session self with
             | Some _ => APIClient._parse_response response
             | None => APIClient._parse_sync_response response
             end) with
      | inl e => inl e
      | inr d => inr (response, d)
      end
  end.

(** A response is well formed when a body declared as JSON decodes. *)
Definition well_formed (response : Response.t) : Prop :=
  contains "application/json" (APIClient.content_type response) = true ->
  exists j, Response.json_ response = inr j.

(** Attempts and back-off suspensions of a trace, in order; the waits
    imposed by the rate limiter are left out. *)
Inductive step := Attempt | Backoff (seconds : Z).

Definition skeleton (evs : list event) : list step :=
  flat_map (fun e => match e with
                     | time_sleep _ => []
                     | asyncio_sleep d => [Backoff d]
                     | request _ _ => [Attempt]
                     end) evs.

Definition is_request (e : event) : bool :=
  match e with request _ _ => true | _ => false end.

Definition transport_calls (evs : list event) : nat :=
  length (List.filter is_request evs).

(** The rate-limiter waits of a trace. *)
Definition limiter_sleeps (evs : list event) : list Q :=
  flat_map (fun e => match e with time_sleep d => [d] | _ => [] end) evs.

(** The instants at which the transport was called. *)
Definition call_times (evs : list event) : list Q :=
  flat_map (fun e => match e with request at_time _ => [at_time] | _ => [] end) evs.

(** Whether an attempt ended in the [except] clause. *)
Definition failed (r : raised + Response.t * body) : bool :=
  match r with inl _ => true | inr _ => false end.

(** The steps that a failed attempt with index [i] leaves in the trace. *)
Definition failed_steps (self : APIClient.t) (i : Z) : list step :=
  Attempt :: (if i <? APIClient.retries self then [Backoff (2 ^ i)] else []).

(** [k] failed attempts, each followed by its back-off, then a last attempt. *)
Definition backoff_schedule (k : nat) : list step :=
  flat_map (fun i => [Attempt; Backoff (2 ^ i)]) (range (Z.of_nat k)) ++ [Attempt].

(** Two worlds that agree on everything but the requests recorded in their
    traces. *)
Definition same_run (w1 w2 : World) : Prop :=
  clock w1 = clock w2
  /\ calls w1 = calls w2
  /\ skeleton (trace w1) = skeleton (trace w2)
  /\ limiter_sleeps (trace w1) = limiter_sleeps (trace w2).

(** The request that every attempt of one execution hands to the transport. *)
Definition request_of (self : APIClient.t) (method endpoint : string)
    (data : option json) (headers : option (gmap string string))
    (params : option json) : Request.t :=
  wire_request self
    (Request.mk method (APIClient.target_url self endpoint) data
       (default ∅ headers ∪ APIClient.default_headers self) params None).

(** An event that, if it is a transport call, carries the request [rq]. *)
Definition sends_only (rq : Request.t) (e : event) : Prop :=
  match e with
  | request _ r => r = rq
  | _ => True
  end.

(** How many of the instants [times] fall in the window that starts at
    [start] and lasts [window] seconds. *)
Definition calls_in_window (start : Q) (window : Z) (times : list Q) : Z :=
  Z.of_nat (length (List.filter
                      (fun x => Qle_bool start x && Qltb x (start + inject_Z window))
                      times)).

(** [n] copies of a character. *)
Fixpoint repeated (n : nat) (c : ascii) : string :=
  match n with
  | O => EmptyString
  | S n' => String c (repeated n' c)
  end.

(** ** [class MockAPIServer] *)

(** [str.upper] on the ASCII letters, which is all an HTTP method holds. *)
Definition upper_ascii (c : ascii) : ascii :=
  let n := nat_of_ascii c in
  if (97 <=? n)%nat && (n <=? 122)%nat then ascii_of_nat (n - 32) else c.

Fixpoint upper (s : string) : string :=
  match s with
  | EmptyString => EmptyString
  | String c s' => String (upper_ascii c) (upper s')
  end.

(** Truth value of an optional string argument: [None] and [""] are false. *)
Definition truthy (s : option string) : bool :=
  match s with
  | Some (String _ _) => true
  | _ => false
  end.

Module MockAPIServer.

(** One entry of [request_log]. *)
Record logged := mkLogged {
  log_method : string;
  log_endpoint : string;
  log_timestamp : Q
}.

Record t := mk {
  responses : gmap string json;
  request_log : list logged
}.

Definition __init__ (responses : gmap string json) : t := mk responses [].

(** [f"{method.upper()}:{endpoint}"] *)
Definition key (method endpoint : string) : string :=
  upper method +:+ ":" +:+ endpoint.

(** The answer for a key that has no response. *)
Definition not_found : json :=
  JObj [("status_code"%string, JNum 404);
        ("data"%string, JObj [("error"%string, JStr "Not found")]);
        ("headers"%string, JObj [("Content-Type"%string, JStr "application/json")])].

(** [get_response], with [now] the value of [datetime.now()]. *)
Definition get_response (now : Q) (method endpoint : string) (self : t) : json * t :=
  let key := key method endpoint in
  let self := mk (responses self)
                (request_log self ++ [mkLogged method endpoint now]) in
  match responses self !! key with
  | Some response => (response, self)
  | None => (not_found, self)
  end.

Definition add_response (method endpoint : string) (response : json) (self : t) : t :=
  let key := key method endpoint in
  mk (<[key := response]> (responses self)) (request_log self).

Definition get_request_count (method endpoint : option string) (self : t) : Z :=
  if negb (truthy method) && negb (truthy endpoint)
  then Z.of_nat (length (request_log self))
  else
    fold_left
      (fun count request =>
         if truthy method
            && negb (String.eqb (upper (log_method request))
                       (upper (default EmptyString method)))
         then count
         else if truthy endpoint
                 && negb (String.eqb (log_endpoint request)
                            (default EmptyString endpoint))
         then count
         else count + 1)
      (request_log self) 0.

Definition clear_log (self : t) : t := mk (responses self) [].

End MockAPIServer.

(** ** Reading limiter histories *)

(** The readings of [nows] that were admitted, given the answers. *)
Fixpoint admitted (nows : list Q) (answers : list bool) : list Q :=
  match nows, answers with
  | now :: nows', true :: answers' => now :: admitted nows' answers'
  | _ :: nows', false :: answers' => admitted nows' answers'
  | _, _ => []
  end.

(** Whether the instant [t] lies in the window of [window] seconds that
    ends at [now]. *)
Definition in_window (now : Q) (window : Z) (t : Q) : bool :=
  Qltb (now - t) (inject_Z window).

(** Clock readings that never go back. *)
Fixpoint nondecreasing (l : list Q) : Prop :=
  match l with
  | [] => True
  | x :: rest => Forall (fun y => x <= y)%Q rest /\ nondecreasing rest
  end.

(** The seconds of back-off in a list of steps. *)
Definition backoff_total (steps : list step) : Z :=
  fold_right (fun s acc => match s with
                           | Attempt => acc
                           | Backoff d => d + acc
                           end) 0 steps.

(** Whether a logged request matches the filters of a count: a filter that
    is [None] or empty matches everything, a method matches up to the case
    of its letters, an endpoint matches when equal. *)
Definition counted (method endpoint : option string)
    (entry : MockAPIServer.logged) : bool :=
  (negb (truthy method)
   || String.eqb (upper (MockAPIServer.log_method entry))
        (upper (default EmptyString method)))
  && (negb (truthy endpoint)
      || String.eqb (MockAPIServer.log_endpoint entry)
           (default EmptyString endpoint)).

(** Whether the character [c] occurs in [s]. *)
Fixpoint has_char (c : ascii) (s : string) : bool :=
  match s with
  | EmptyString => false
  | String a s' => Ascii.eqb a c || has_char c s'
  end.

(** [str.isascii]: on such text [upper] above is [str.upper]. *)
Fixpoint is_ascii (s : string) : bool :=
  match s with
  | EmptyString => true
  | String c s' => (nat_of_ascii c <? 128)%nat && is_ascii s'
  end.

(** The value of [APIResponse.data] as Python sees it: there is one [None],
    so the decoded JSON document [null] is the same value as no payload. *)
Definition python_data (data : option body) : option body :=
  match data with
  | Some (Structured JNull) => None
  | _ => data
  end.

(** Every transport call recorded in [evs] carries a request with [P]. *)
Definition every_call (P : Request.t -> Prop) (evs : list event) : Prop :=
  forall at_time rq, In (request at_time rq) evs -> P rq.

(** * Properties *)

(** ** Comparisons and the Python built-ins *)

Lemma Qltb_lt (x y : Q) : Qltb x y = true <-> (x < y)%Q.
Proof.
  unfold Qltb. rewrite negb_true_iff, <- not_true_iff_false, Qle_bool_iff.
  split; intros H; lra.
Qed.

Lemma Qltb_ge (x y : Q) : Qltb x y = false <-> (y <= x)%Q.
Proof.
  unfold Qltb. rewrite negb_false_iff, Qle_bool_iff. reflexivity.
Qed.

Lemma py_max_Qmax (a b : Q) : (py_max a b == Qmax a b)%Q.
Proof.
  unfold py_max. destruct (Qltb a b) eqn:E.
  - apply Qltb_lt in E. symmetry. apply Q.max_r. lra.
  - apply Qltb_ge in E. symmetry. apply Q.max_l. lra.
Qed.

Lemma py_max_mono (a b c : Q) : (b <= c)%Q -> (py_max a b <= py_max a c)%Q.
Proof.
  intros H. unfold py_max.
  destruct (Qltb a b) eqn:E1; destruct (Qltb a c) eqn:E2;
    try apply Qltb_lt in E1; try apply Qltb_lt in E2;
    try apply Qltb_ge in E1; try apply Qltb_ge in E2; lra.
Qed.

Lemma py_min_In (xs : list Q) : forall x, In (py_min x xs) (x :: xs).
Proof.
  induction xs as [|y ys IH]; intros x; [now left|].
  unfold py_min; simpl. fold (py_min (if Qltb y x then y else x) ys).
  destruct (IH (if Qltb y x then y else x)) as [H|H].
  - rewrite <- H. destruct (Qltb y x); [right; now left | now left].
  - right; now right.
Qed.

Lemma py_min_le (xs : list Q) :
  forall x z, In z (x :: xs) -> (py_min x xs <= z)%Q.
Proof.
  induction xs as [|y ys IH]; intros x z Hz.
  - destruct Hz as [<-|[]]. unfold py_min; simpl. lra.
  - unfold py_min; simpl. fold (py_min (if Qltb y x then y else x) ys).
    assert (Hm : (py_min (if Qltb y x then y else x) ys
                  <= (if Qltb y x then y else x))%Q) by (apply IH; now left).
    destruct Hz as [<-|[<-|Hz]].
    + destruct (Qltb y x) eqn:E; [apply Qltb_lt in E|]; lra.
    + destruct (Qltb y x) eqn:E; [|apply Qltb_ge in E]; lra.
    + apply IH. now right.
Qed.

Lemma filter_keep_all {A} (p : A -> bool) (l : list A) :
  Forall (fun x => p x = true) l -> List.filter p l = l.
Proof.
  induction 1 as [|x l Hx _ IH]; simpl; [reflexivity|]. now rewrite Hx, IH.
Qed.

Lemma filter_drop_all {A} (p : A -> bool) (l : list A) :
  Forall (fun x => p x = false) l -> List.filter p l = [].
Proof.
  induction 1 as [|x l Hx _ IH]; simpl; [reflexivity|]. now rewrite Hx, IH.
Qed.

(** ** RateLimiter *)

Module RateLimiterProps.
Import RateLimiter.

(** While every recorded and every new reading lies in a span shorter than
    the window and there is room, each call is admitted and recorded. *)
Lemma can_proceed_seq_admits (N W : Z) (t0 t : Q) (nows : list Q) :
  (t - t0 < inject_Z W)%Q ->
  forall pre,
    Forall (fun x => t0 <= x <= t)%Q (pre ++ nows) ->
    Z.of_nat (length pre + length nows) <= N ->
    can_proceed_seq nows (mk N W pre)
    = (repeat true (length nows), mk N W (pre ++ nows)).
Proof.
  intros Hspan. induction nows as [|now rest IH]; intros pre Hall Hlen.
  - simpl. now rewrite app_nil_r.
  - simpl. unfold can_proceed; simpl.
    assert (Hnow : (t0 <= now <= t)%Q).
    { rewrite List.Forall_forall in Hall. apply Hall, in_or_app. right. now left. }
    rewrite filter_keep_all.
    2:{ rewrite List.Forall_forall in *. intros x Hx. apply Qltb_lt.
        assert (t0 <= x <= t)%Q by (apply Hall, in_or_app; now left). lra. }
    replace (Z.of_nat (length pre) <? N) with true.
    2:{ symmetry. apply Z.ltb_lt. simpl in Hlen. lia. }
    rewrite (IH (pre ++ [now])).
    + now rewrite <- app_assoc.
    + now rewrite <- app_assoc.
    + rewrite length_app. simpl in *. lia.
Qed.

Lemma can_proceed_full (N W : Z) (t0 t : Q) (ts : list Q) :
  (t - t0 < inject_Z W)%Q ->
  Forall (fun x => t0 <= x <= t)%Q ts ->
  N <= Z.of_nat (length ts) ->
  can_proceed t (mk N W ts) = (false, mk N W ts).
Proof.
  intros Hspan Hall Hlen. unfold can_proceed; simpl.
  rewrite filter_keep_all.
  2:{ rewrite List.Forall_forall in *. intros x Hx. apply Qltb_lt.
      specialize (Hall x Hx). lra. }
  replace (Z.of_nat (length ts) <? N) with false; [reflexivity|].
  symmetry. apply Z.ltb_ge. lia.
Qed.

Lemma can_proceed_expired (N W : Z) (t tlate : Q) (ts : list Q) :
  0 < N ->
  (t + inject_Z W <= tlate)%Q ->
  Forall (fun x => x <= t)%Q ts ->
  can_proceed tlate (mk N W ts) = (true, mk N W [tlate]).
Proof.
  intros HN Hlate Hall. unfold can_proceed; simpl.
  rewrite filter_drop_all.
  2:{ rewrite List.Forall_forall in *. intros x Hx. apply Qltb_ge.
      specialize (Hall x Hx). lra. }
  cbn [length app]. replace (Z.of_nat 0 <? N) with true; [reflexivity|].
  symmetry. apply Z.ltb_lt. lia.
Qed.

(** What one call does to an arbitrary limiter. *)
Lemma can_proceed_step (now : Q) (self : t) :
  let kept := List.filter
                (fun x => Qltb (now - x) (inject_Z (time_window self)))
                (requests self) in
  let admitted := fst (can_proceed now self) in
  let self' := snd (can_proceed now self) in
  (forall x, In x kept <->
             In x (requests self) /\ (now - x < inject_Z (time_window self))%Q)
  /\ (admitted = true <-> Z.of_nat (length kept) < max_requests self)
  /\ requests self' = kept ++ (if admitted then [now] else [])
  /\ max_requests self' = max_requests self
  /\ time_window self' = time_window self.
Proof.
  cbv zeta. split.
  - intros x. rewrite filter_In, Qltb_lt. reflexivity.
  - unfold can_proceed.
    destruct (Z.of_nat (length (List.filter _ (requests self))) <? max_requests self)
      eqn:E; simpl.
    + apply Z.ltb_lt in E. repeat split; auto.
    + apply Z.ltb_ge in E. rewrite app_nil_r.
      repeat split; auto; try discriminate; lia.
Qed.

Lemma filter_length_le {A} (p : A -> bool) (l : list A) :
  (length (List.filter p l) <= length l)%nat.
Proof.
  induction l as [|x l IH]; simpl; [lia|]. destruct (p x); simpl; lia.
Qed.

Lemma filter_same_length {A} (p : A -> bool) (l : list A) :
  length (List.filter p l) = length l -> List.filter p l = l.
Proof.
  induction l as [|x l IH]; simpl; [reflexivity|].
  destruct (p x); simpl; intros H.
  - f_equal. apply IH. lia.
  - pose proof (filter_length_le p l). lia.
Qed.

(** A limiter that holds no more timestamps than its bound is left as it
    was by a refusal: nothing can have been pruned. *)
Lemma refused_keeps_state (now : Q) (self : t) :
  Z.of_nat (length (requests self)) <= max_requests self ->
  fst (can_proceed now self) = false ->
  snd (can_proceed now self) = self.
Proof.
  intros Hinv. unfold can_proceed.
  set (kept := List.filter _ (requests self)).
  destruct (Z.of_nat (length kept) <? max_requests self) eqn:E; [discriminate|].
  intros _. simpl. apply Z.ltb_ge in E.
  assert (Hle : (length kept <= length (requests self))%nat)
    by apply filter_length_le.
  assert (Hk : kept = requests self) by (apply filter_same_length; fold kept; lia).
  rewrite Hk. now destruct self.
Qed.

(** The bound on the number of timestamps is kept by every call. *)
Lemma can_proceed_bounded (now : Q) (self : t) :
  Z.of_nat (length (requests self)) <= max_requests self ->
  Z.of_nat (length (requests (snd (can_proceed now self)))) <= max_requests self.
Proof.
  intros Hinv. unfold can_proceed.
  set (kept := List.filter _ (requests self)).
  destruct (Z.of_nat (length kept) <? max_requests self) eqn:E; simpl.
  - apply Z.ltb_lt in E. rewrite length_app. simpl. lia.
  - etransitivity; [|exact Hinv]. apply Nat2Z.inj_le, filter_length_le.
Qed.

End RateLimiterProps.

Module RateLimiterSpec.
Import RateLimiter RateLimiterProps.

(** C2. A limiter with [max_requests = N > 0] and window [W > 0] that starts
    with no timestamp admits [N] calls made in quick succession (all readings
    within a span shorter than [W], in particular at one instant), recording
    each reading; the next call in that span is refused and leaves the
    limiter as it was; once the clock has advanced by at least [W] the next
    call is admitted again.  On every call the timestamps of age [>= W] are
    dropped, the others are kept, and the reading is appended exactly when the
    call is admitted. *)
Theorem C2_sliding_window_admission (N W : Z) (nows : list Q) (t0 t tlate : Q) :
  0 < N -> 0 < W ->
  Z.of_nat (length nows) = N ->
  Forall (fun x => t0 <= x <= t)%Q nows ->
  (t - t0 < inject_Z W)%Q ->
  (t + inject_Z W <= tlate)%Q ->
  (exists full,
      can_proceed_seq nows (mk N W []) = (repeat true (Z.to_nat N), full)
      /\ requests full = nows
      /\ can_proceed t full = (false, full)
      /\ fst (can_proceed tlate full) = true
      /\ requests (snd (can_proceed tlate full)) = [tlate])
  /\ (forall now self,
        let kept := List.filter
                      (fun x => Qltb (now - x) (inject_Z (time_window self)))
                      (requests self) in
        let admitted := fst (can_proceed now self) in
        let self' := snd (can_proceed now self) in
        (forall x, In x kept <->
                   In x (requests self)
                   /\ (now - x < inject_Z (time_window self))%Q)
        /\ (admitted = true <-> Z.of_nat (length kept) < max_requests self)
        /\ requests self' = kept ++ (if admitted then [now] else [])
        /\ max_requests self' = max_requests self
        /\ time_window self' = time_window self).
Proof.
  intros HN HW Hlen Hall Hspan Hlate. split.
  - exists (mk N W nows).
    assert (Hseq := can_proceed_seq_admits N W t0 t nows Hspan [] Hall).
    simpl in Hseq. rewrite Hseq by lia.
    replace (Z.to_nat N) with (length nows) by lia.
    split; [reflexivity|]. split; [reflexivity|]. split.
    + apply (can_proceed_full N W t0 t); auto. lia.
    + rewrite (can_proceed_expired N W t tlate); auto.
      eapply List.Forall_impl; [|exact Hall]. simpl. intros x Hx. lra.
  - intros now self. apply can_proceed_step.
Qed.

Lemma C2_sliding_window_admission_witness :
  exists full,
    can_proceed_seq [0%Q; 0%Q; 0%Q] (mk 3 60 [])
    = (repeat true (Z.to_nat 3), full)
    /\ requests full = [0%Q; 0%Q; 0%Q]
    /\ can_proceed 0%Q full = (false, full)
    /\ fst (can_proceed 60%Q full) = true
    /\ requests (snd (can_proceed 60%Q full)) = [60%Q].
Proof.
  refine (proj1 (C2_sliding_window_admission 3 60 [0%Q; 0%Q; 0%Q] 0%Q 0%Q 60%Q
                   _ _ _ _ _ _)).
  - lia.
  - lia.
  - reflexivity.
  - repeat constructor; simpl; discriminate.
  - reflexivity.
  - vm_compute. discriminate.
Defined.

(** C8. [wait_time] returns 0 when no timestamp is recorded, and otherwise
    [max(0, window - (now - oldest))] for the oldest (smallest) recorded
    timestamp; it returns the limiter unchanged; hence a later reading never
    gives a larger value, also when [can_proceed] was called in between and
    refused (on a limiter within its bound a refusal changes nothing). *)
Theorem C8_wait_time_advisory (self : t) (now : Q) :
  (requests self = [] -> fst (wait_time now self) = 0%Q)
  /\ (forall oldest,
        In oldest (requests self) ->
        (forall x, In x (requests self) -> (oldest <= x)%Q) ->
        (fst (wait_time now self)
         == Qmax 0 (inject_Z (time_window self) - (now - oldest)))%Q)
  /\ snd (wait_time now self) = self
  /\ (forall later,
        (now <= later)%Q ->
        (fst (wait_time later (snd (wait_time now self)))
         <= fst (wait_time now self))%Q)
  /\ (forall between later,
        (now <= later)%Q ->
        Z.of_nat (length (requests self)) <= max_requests self ->
        fst (can_proceed between (snd (wait_time now self))) = false ->
        (fst (wait_time later
                (snd (can_proceed between (snd (wait_time now self)))))
         <= fst (wait_time now self))%Q).
Proof.
  assert (Hsame : snd (wait_time now self) = self).
  { unfold wait_time. now destruct (requests self). }
  assert (Hmono : forall later, (now <= later)%Q ->
            (fst (wait_time later self) <= fst (wait_time now self))%Q).
  { intros later Hle. unfold wait_time.
    destruct (requests self) as [|r rs]; simpl; [lra|].
    apply py_max_mono. lra. }
  rewrite Hsame.
  split; [|split; [|split; [reflexivity|split]]].
  4:{ intros between later Hle Hinv Href.
      rewrite refused_keeps_state by assumption. now apply Hmono. }
  3:{ exact Hmono. }
  all: clear Hsame Hmono.
  - unfold wait_time. intros ->. reflexivity.
  - unfold wait_time. destruct (requests self) as [|r rs]; simpl.
    + intros oldest [].
    + intros oldest Hin Hmin. rewrite py_max_Qmax.
      assert (H1 : (py_min r rs <= oldest)%Q) by now apply py_min_le.
      assert (H2 : (oldest <= py_min r rs)%Q) by apply Hmin, py_min_In.
      assert (Heq : (py_min r rs == oldest)%Q) by lra.
      now rewrite Heq.
Qed.

Lemma C8_wait_time_advisory_witness :
  let self := mk 2 60 [10%Q; 5%Q; 20%Q] in
  (fst (wait_time 30 self) == Qmax 0 (60 - (30 - 5)))%Q
  /\ snd (wait_time 30 self) = self
  /\ (fst (wait_time 45 (snd (wait_time 30 self))) <= fst (wait_time 30 self))%Q.
Proof.
  intros self.
  destruct (C8_wait_time_advisory self 30) as (_ & Hvalue & Hsame & Hmono & _).
  split; [|split; [exact Hsame|]].
  - apply (Hvalue 5%Q).
    + simpl. auto.
    + intros x [<-|[<-|[<-|[]]]]; vm_compute; discriminate.
  - apply Hmono. vm_compute. discriminate.
Defined.

(** C3 (as the code has it).  The constructors check nothing: [RateLimiter]
    stores any bound and any window, non-positive ones included, with an
    empty timestamp list, and [APIClient] always builds its limiter with a
    window of 60. *)
Theorem C3_constructors_accept_everything
    (max_requests time_window : Z) (base : string) (timeout retries rate_limit : Z)
    (token : option string) :
  RateLimiter.__init__ max_requests time_window
  = inr (mk max_requests time_window [])
  /\ exists client,
       APIClient.__init__ base timeout retries rate_limit token = inr client
       /\ APIClient.rate_limiter client = mk rate_limit 60 [].
Proof.
  split; [reflexivity|]. unfold APIClient.__init__; simpl. eauto.
Qed.

(** C3 fails as stated: a window of 0 is accepted. *)
Lemma C3_counterexample :
  ~ (forall max_requests time_window,
        time_window <= 0 ->
        exists e, RateLimiter.__init__ max_requests time_window = inl e).
Proof.
  intros H. destruct (H 100 0) as [e He]; [lia|]. discriminate He.
Qed.

End RateLimiterSpec.

(** ** APIClient: one attempt *)

Module APIClientProps.
Import APIClient.

Lemma skeleton_app (a b : list event) : skeleton (a ++ b) = skeleton a ++ skeleton b.
Proof. unfold skeleton. apply flat_map_app. Qed.

Lemma transport_calls_app (a b : list event) :
  transport_calls (a ++ b) = (transport_calls a + transport_calls b)%nat.
Proof. unfold transport_calls. now rewrite List.filter_app, length_app. Qed.

Lemma limiter_sleeps_app (a b : list event) :
  limiter_sleeps (a ++ b) = limiter_sleeps a ++ limiter_sleeps b.
Proof. unfold limiter_sleeps. apply flat_map_app. Qed.

Lemma call_times_app (a b : list event) :
  call_times (a ++ b) = call_times a ++ call_times b.
Proof. unfold call_times. apply flat_map_app. Qed.

(** The rate-limit step touches the limiter and the clock only; what it adds
    to the trace is at most one [time.sleep]. *)
Lemma apply_rate_limit_frame (self : t) (w : World) :
  exists limiter sleeps,
    fst (_apply_rate_limit self w) = set_rate_limiter self limiter
    /\ calls (snd (_apply_rate_limit self w)) = calls w
    /\ trace (snd (_apply_rate_limit self w)) = trace w ++ map time_sleep sleeps
    /\ (length sleeps <= 1)%nat.
Proof.
  unfold _apply_rate_limit.
  destruct (RateLimiter.can_proceed (clock w) (rate_limiter self)) as [ok rl].
  destruct ok; simpl.
  - exists rl, []. simpl. rewrite app_nil_r. auto.
  - destruct (RateLimiter.wait_time (clock w) rl) as [wt rl'].
    destruct (Qltb 0 wt); simpl.
    + exists rl', [wt]. auto.
    + exists rl', []. simpl. rewrite app_nil_r. auto.
Qed.

Lemma skeleton_sleeps (sleeps : list Q) : skeleton (map time_sleep sleeps) = [].
Proof. induction sleeps; simpl; auto. Qed.

Lemma transport_calls_sleeps (sleeps : list Q) :
  transport_calls (map time_sleep sleeps) = 0%nat.
Proof. induction sleeps; simpl; auto. Qed.

Lemma call_times_sleeps (sleeps : list Q) : call_times (map time_sleep sleeps) = [].
Proof. induction sleeps; simpl; auto. Qed.

Section OneAttempt.

Variable tr : transport.

(** One attempt: the rate-limit step, then exactly one transport call, then
    the parse that belongs to the branch taken. *)
Lemma try_request_unfold (self : t) (req : Request.t) (start_time : Q) (w : World) :
  try_request tr self req start_time w =
  let self1 := fst (_apply_rate_limit self w) in
  let w1 := snd (_apply_rate_limit self w) in
  let r := tr (calls w1) (wire_request self req) in
  let w2 := mkWorld (clock w1 + took r)%Q (S (calls w1))
              (trace w1 ++ [request (clock w1) (wire_request self req)]) in
  (match attempt_outcome self (result r) with
   | inl e => inl e
   | inr (response, d) =>
       inr (APIResponse.mk (Response.status response) (Some d)
              (Response.headers response) (clock w2 - start_time)%Q
              (Response.status response <? 400) None)
   end, self1, w2).
Proof.
  unfold try_request.
  destruct (apply_rate_limit_frame self w) as (rl & sl & Hself & _).
  destruct (_apply_rate_limit self w) as [self1 w1]. simpl in Hself. subst self1.
  cbv zeta. simpl fst. simpl snd. unfold wire_request, attempt_outcome, send.
  simpl session. destruct (session self); simpl.
  - destruct (result (tr (calls w1) req)); [reflexivity|].
    destruct (_parse_response r); reflexivity.
  - destruct (result (tr (calls w1) _)); [reflexivity|].
    destruct (_parse_sync_response r); reflexivity.
Qed.

Lemma try_request_frame (self : t) (req : Request.t) (start_time : Q) (w : World) :
  exists limiter sleeps at_time w2,
    try_request tr self req start_time w =
    (match attempt_outcome self (result (tr (calls w) (wire_request self req))) with
     | inl e => inl e
     | inr (response, d) =>
         inr (APIResponse.mk (Response.status response) (Some d)
                (Response.headers response) (clock w2 - start_time)%Q
                (Response.status response <? 400) None)
     end, set_rate_limiter self limiter, w2)
    /\ calls w2 = S (calls w)
    /\ trace w2 = trace w ++ map time_sleep sleeps
                   ++ [request at_time (wire_request self req)]
    /\ (length sleeps <= 1)%nat.
Proof.
  rewrite try_request_unfold. cbv zeta.
  destruct (apply_rate_limit_frame self w) as (rl & sl & Hself & Hcalls & Htrace & Hlen).
  rewrite Hself, Hcalls, Htrace.
  eexists rl, sl, _, _. split; [reflexivity|]. simpl.
  split; [reflexivity|]. split; [now rewrite <- app_assoc|exact Hlen].
Qed.

End OneAttempt.

Lemma wire_request_limiter (self : t) (rl : RateLimiter.t) (req : Request.t) :
  wire_request (set_rate_limiter self rl) req = wire_request self req.
Proof. reflexivity. Qed.

Lemma attempt_outcome_limiter (self : t) (rl : RateLimiter.t) (out : outcome) :
  attempt_outcome (set_rate_limiter self rl) out = attempt_outcome self out.
Proof. reflexivity. Qed.

Lemma set_rate_limiter_twice (self : t) (rl rl' : RateLimiter.t) :
  set_rate_limiter (set_rate_limiter self rl) rl' = set_rate_limiter self rl'.
Proof. reflexivity. Qed.

(** ** APIClient: the retry loop *)

Lemma flat_map_ext_In {A B} (f g : A -> list B) (l : list A) :
  (forall x, In x l -> f x = g x) -> flat_map f l = flat_map g l.
Proof.
  induction l as [|x l IH]; intros H; simpl; [reflexivity|].
  rewrite H by now left. rewrite IH; [reflexivity|]. intros y Hy. apply H. now right.
Qed.

(** Below a bound, either some index is the first to satisfy [p] or none does. *)
Lemma first_true (p : nat -> bool) (n : nat) :
  (exists k, (k < n)%nat /\ p k = true /\ forall i, (i < k)%nat -> p i = false)
  \/ (forall i, (i < n)%nat -> p i = false).
Proof.
  induction n as [|n [(k & Hk & Hp & Hbefore)|Hnone]].
  - right. intros i Hi. lia.
  - left. exists k. repeat split; auto.
  - destruct (p n) eqn:E.
    + left. exists n. repeat split; auto.
    + right. intros i Hi. destruct (Nat.eq_dec i n) as [->|]; [exact E|].
      apply Hnone. lia.
Qed.

Section Loop.

Variable tr : transport.

(** [k] failed attempts in a row: the loop is then where it would be had it
    started with the remaining indices, [k] transport calls later. *)
Lemma retry_loop_failed_prefix (self : t) (req : Request.t) (start_time : Q) (k : nat) :
  forall (a : nat) (rest : list Z) (last : option string) (limiter0 : RateLimiter.t)
         (w : World),
    (forall i, (i < k)%nat ->
       failed (attempt_outcome self
                 (result (tr (calls w + i)%nat (wire_request self req)))) = true) ->
    exists limiter w' evs last',
      retry_loop tr (map Z.of_nat (seq a k) ++ rest) last
        (set_rate_limiter self limiter0) req start_time w
      = retry_loop tr rest last' (set_rate_limiter self limiter) req start_time w'
      /\ calls w' = (calls w + k)%nat
      /\ trace w' = trace w ++ evs
      /\ skeleton evs = flat_map (failed_steps self) (map Z.of_nat (seq a k))
      /\ transport_calls evs = k
      /\ match k with
         | O => last' = last
         | S j => exists e,
             attempt_outcome self
               (result (tr (calls w + j)%nat (wire_request self req))) = inl e
             /\ last' = Some (exc_str e)
         end.
Proof.
  induction k as [|k IH]; intros a rest last limiter0 w Hfail.
  - exists limiter0, w, [], last. simpl. rewrite app_nil_r, Nat.add_0_r. repeat split.
  - cbn [seq map app retry_loop].
    destruct (try_request_frame tr (set_rate_limiter self limiter0) req start_time w)
      as (rl & sl & at_time & w2 & Htry & Hcalls & Htrace & _).
    rewrite Htry, set_rate_limiter_twice, wire_request_limiter, attempt_outcome_limiter.
    assert (H0 := Hfail 0%nat ltac:(lia)). rewrite Nat.add_0_r in H0.
    destruct (attempt_outcome self (result (tr (calls w) (wire_request self req))))
      as [e|[response d]] eqn:Hout; [clear H0|discriminate H0].
    set (w3 := if Z.of_nat a <? retries (set_rate_limiter self rl)
               then do_asyncio_sleep (2 ^ Z.of_nat a) w2 else w2).
    assert (Hcalls3 : calls w3 = S (calls w)).
    { unfold w3. destruct (_ <? _); simpl; exact Hcalls. }
    assert (Htrace3 : trace w3 = trace w2
              ++ (if Z.of_nat a <? retries self
                  then [asyncio_sleep (2 ^ Z.of_nat a)] else [])).
    { unfold w3. change (retries (set_rate_limiter self rl)) with (retries self).
      destruct (_ <? _); simpl; [reflexivity|now rewrite app_nil_r]. }
    destruct (IH (S a) rest (Some (exc_str e)) rl w3)
      as (rl' & w' & evs & last' & Hloop & Hc & Ht & Hsk & Htc & Hlast).
    { intros i Hi. rewrite Hcalls3. replace (S (calls w) + i)%nat with (calls w + S i)%nat by lia.
      apply Hfail. lia. }
    exists rl', w',
      (map time_sleep sl ++ [request at_time (wire_request self req)]
       ++ (if Z.of_nat a <? retries self
           then [asyncio_sleep (2 ^ Z.of_nat a)] else []) ++ evs), last'.
    split; [exact Hloop|]. split; [rewrite Hc, Hcalls3; lia|].
    split; [rewrite Ht, Htrace3, Htrace; now rewrite <- !app_assoc|].
    split; [|split].
    + rewrite !skeleton_app, skeleton_sleeps, Hsk. cbn [flat_map app].
      unfold failed_steps at 2. destruct (_ <? _); reflexivity.
    + rewrite !transport_calls_app, transport_calls_sleeps, Htc.
      destruct (_ <? _); reflexivity.
    + destruct k as [|j].
      * exists e. rewrite Nat.add_0_r. split; [exact Hout|exact Hlast].
      * destruct Hlast as (e' & He' & Hl'). exists e'. split; [|exact Hl'].
        rewrite Hcalls3 in He'.
        replace (calls w + S j)%nat with (S (calls w) + j)%nat by lia. exact He'.
Qed.

Lemma failed_steps_schedule (self : t) (k : nat) :
  Z.of_nat k <= retries self ->
  flat_map (failed_steps self) (map Z.of_nat (seq 0 k))
  = flat_map (fun i => [Attempt; Backoff (2 ^ i)]) (range (Z.of_nat k)).
Proof.
  intros Hk. unfold range. rewrite Nat2Z.id. apply flat_map_ext_In.
  intros x Hx. apply in_map_iff in Hx. destruct Hx as (i & <- & Hi).
  apply in_seq in Hi. unfold failed_steps.
  replace (Z.of_nat i <? retries self) with true; [reflexivity|].
  symmetry. apply Z.ltb_lt. lia.
Qed.

(** The two ways the loop can end: some attempt is the first not to fail and
    its response is returned at once, or every attempt fails. *)
Lemma retry_loop_cases (self : t) (req : Request.t) (start_time : Q)
    (limiter0 : RateLimiter.t) (w : World) :
  0 <= retries self ->
  let n := Z.to_nat (retries self + 1) in
  let out i := attempt_outcome self
                 (result (tr (calls w + i)%nat (wire_request self req))) in
  (exists k response d limiter w' evs,
      (k < n)%nat
      /\ (forall i, (i < k)%nat -> failed (out i) = true)
      /\ out k = inr (response, d)
      /\ retry_loop tr (range (retries self + 1)) None
           (set_rate_limiter self limiter0) req start_time w
         = (APIResponse.mk (Response.status response) (Some d)
              (Response.headers response) (clock w' - start_time)%Q
              (Response.status response <? 400) None,
            set_rate_limiter self limiter, w')
      /\ calls w' = (calls w + S k)%nat
      /\ trace w' = trace w ++ evs
      /\ skeleton evs = backoff_schedule k
      /\ transport_calls evs = S k)
  \/ (exists e limiter w' evs,
        (forall i, (i < n)%nat -> failed (out i) = true)
        /\ out (n - 1)%nat = inl e
        /\ retry_loop tr (range (retries self + 1)) None
             (set_rate_limiter self limiter0) req start_time w
           = (APIResponse.mk 0 None ∅ (clock w' - start_time)%Q false
                (Some (exc_str e)),
              set_rate_limiter self limiter, w')
        /\ calls w' = (calls w + n)%nat
        /\ trace w' = trace w ++ evs
        /\ skeleton evs = backoff_schedule (n - 1)
        /\ transport_calls evs = n).
Proof.
  intros Hr n out.
  destruct (first_true (fun i => negb (failed (out i))) n)
    as [(k & Hk & Hok & Hbefore)|Hall].
  - left.
    assert (Hfail : forall i, (i < k)%nat -> failed (out i) = true).
    { intros i Hi. apply negb_false_iff, Hbefore, Hi. }
    destruct (out k) as [e|[response d]] eqn:Hout; [discriminate Hok|].
    destruct (retry_loop_failed_prefix self req start_time k 0%nat
                (map Z.of_nat (seq k (n - k))) None limiter0 w Hfail)
      as (rl & w1 & evs & last' & Hloop & Hc & Ht & Hsk & Htc & _).
    assert (Hseq : seq 0 n = seq 0 k ++ seq k (n - k)).
    { replace n with (k + (n - k))%nat at 1 by lia. apply seq_app. }
    unfold range. fold n. rewrite Hseq, map_app, Hloop.
    replace (n - k)%nat with (S (n - k - 1)) by lia. cbn [seq map retry_loop].
    destruct (try_request_frame tr (set_rate_limiter self rl) req start_time w1)
      as (rl' & sl & at_time & w2 & Htry & Hcalls & Htrace & _).
    rewrite Htry, set_rate_limiter_twice, wire_request_limiter,
      attempt_outcome_limiter, Hc.
    fold (out k). rewrite Hout.
    exists k, response, d, rl', w2,
      (evs ++ map time_sleep sl ++ [request at_time (wire_request self req)]).
    repeat split; auto.
    + rewrite Hcalls, Hc. lia.
    + rewrite Htrace, Ht. now rewrite <- !app_assoc.
    + rewrite !skeleton_app, skeleton_sleeps, Hsk. unfold backoff_schedule.
      rewrite failed_steps_schedule by lia. reflexivity.
    + rewrite !transport_calls_app, transport_calls_sleeps, Htc.
      unfold transport_calls. simpl. lia.
  - right.
    assert (Hfail : forall i, (i < n)%nat -> failed (out i) = true).
    { intros i Hi. apply negb_false_iff, Hall, Hi. }
    destruct (retry_loop_failed_prefix self req start_time n 0%nat [] None limiter0 w Hfail)
      as (rl & w1 & evs & last' & Hloop & Hc & Ht & Hsk & Htc & Hlast).
    rewrite app_nil_r in Hloop. unfold range. fold n. rewrite Hloop.
    assert (Hn : n = S (Z.to_nat (retries self))) by (unfold n; lia).
    rewrite Hn in Hlast. destruct Hlast as (e & He & ->).
    exists e, rl, w1, evs. repeat split; auto.
    + rewrite Hn. simpl. rewrite Nat.sub_0_r. exact He.
    + rewrite Hsk, Hn. simpl Nat.sub. rewrite Nat.sub_0_r.
      rewrite seq_S, map_app, flat_map_app. unfold backoff_schedule.
      rewrite failed_steps_schedule by lia. f_equal.
      simpl. unfold failed_steps. rewrite Z2Nat.id by lia.
      rewrite Z.ltb_irrefl. reflexivity.
Qed.

Lemma set_rate_limiter_same (self : t) : set_rate_limiter self (rate_limiter self) = self.
Proof. destruct self; reflexivity. Qed.

(** Whatever the transport answers, the loop adds to the trace only sleeps
    and calls that carry the one request built before the loop. *)
Lemma retry_loop_requests (self : t) (req : Request.t) (start_time : Q)
    (attempts : list Z) :
  forall (last : option string) (limiter0 : RateLimiter.t) (w : World),
  exists evs,
    trace (snd (retry_loop tr attempts last (set_rate_limiter self limiter0)
                  req start_time w)) = trace w ++ evs
    /\ Forall (sends_only (wire_request self req)) evs.
Proof.
  induction attempts as [|attempt rest IH]; intros last limiter0 w.
  - exists []. simpl. rewrite app_nil_r. split; [reflexivity|constructor].
  - cbn [retry_loop].
    destruct (try_request_frame tr (set_rate_limiter self limiter0) req start_time w)
      as (rl & sl & at_time & w2 & Htry & _ & Htrace & _).
    rewrite Htry, set_rate_limiter_twice, wire_request_limiter, attempt_outcome_limiter.
    assert (Hsent : Forall (sends_only (wire_request self req))
                      (map time_sleep sl ++ [request at_time (wire_request self req)])).
    { apply Forall_app. split.
      - apply List.Forall_forall. intros e He. apply in_map_iff in He.
        destruct He as (x & <- & _). exact I.
      - repeat constructor. }
    destruct (attempt_outcome self _) as [e|[response d]].
    + set (w3 := if attempt <? retries (set_rate_limiter self rl)
                 then do_asyncio_sleep (2 ^ attempt) w2 else w2).
      destruct (IH (Some (exc_str e)) rl w3) as (evs & Hevs & Hall).
      assert (Htrace3 : exists bo, trace w3 = trace w2 ++ bo
                                   /\ Forall (sends_only (wire_request self req)) bo).
      { unfold w3. destruct (_ <? _); simpl.
        - eexists. split; [reflexivity|]. repeat constructor.
        - exists []. rewrite app_nil_r. split; [reflexivity|constructor]. }
      destruct Htrace3 as (bo & Hbo & Hbo_all).
      exists ((map time_sleep sl ++ [request at_time (wire_request self req)])
              ++ bo ++ evs).
      split.
      * rewrite Hevs, Hbo, Htrace. now rewrite <- !app_assoc.
      * apply Forall_app. split; [exact Hsent|]. apply Forall_app. now split.
    + simpl. eexists. split; [exact Htrace|exact Hsent].
Qed.

End Loop.

End APIClientProps.

(** ** Stripping slashes *)

Lemma append_cons (a : ascii) (s1 s2 : string) :
  String a s1 +:+ s2 = String a (s1 +:+ s2).
Proof. reflexivity. Qed.

Lemma append_empty (s : string) : EmptyString +:+ s = s.
Proof. reflexivity. Qed.

Lemma lstrip_spec (c : ascii) (s : string) :
  exists n,
    s = repeated n c +:+ lstrip c s
    /\ forall rest, lstrip c s <> String c rest.
Proof.
  induction s as [|a s (n & Hs & Hno)]; simpl.
  - exists 0%nat. split; [reflexivity|discriminate].
  - destruct (Ascii.eqb a c) eqn:E.
    + apply Ascii.eqb_eq in E. subst a. exists (S n). simpl repeated.
      rewrite append_cons. split; [f_equal; exact Hs|exact Hno].
    + apply Ascii.eqb_neq in E. exists 0%nat. split; [reflexivity|].
      intros rest H. injection H as H _. contradiction.
Qed.

Lemma rstrip_spec (c : ascii) (s : string) :
  exists n,
    s = rstrip c s +:+ repeated n c
    /\ forall pre, rstrip c s <> pre +:+ String c EmptyString.
Proof.
  induction s as [|a s (n & Hs & Hno)]; simpl.
  - exists 0%nat. split; [reflexivity|]. intros [|b pre]; discriminate.
  - destruct (rstrip c s) as [|b r] eqn:Er.
    + rewrite append_empty in Hs. destruct (Ascii.eqb a c) eqn:E.
      * apply Ascii.eqb_eq in E. subst a. exists (S n). simpl repeated.
        rewrite append_empty.
        split; [f_equal; exact Hs|]. intros [|b pre]; discriminate.
      * apply Ascii.eqb_neq in E. exists n. rewrite append_cons, append_empty.
        split; [f_equal; exact Hs|].
        intros [|b [|b' pre]] H; try discriminate H.
        injection H as H. contradiction.
    + exists n. rewrite append_cons. split.
      * f_equal. exact Hs.
      * intros [|b' pre] H.
        -- discriminate H.
        -- rewrite append_cons in H. injection H as _ H. exact (Hno pre H).
Qed.

(** ** APIClient: executions *)

Module APIClientSpec.
Import APIClient APIClientProps.

Lemma make_request_cases (tr : transport) (self : t) (method endpoint : string)
    (data : option json) (headers : option (gmap string string))
    (params : option json) (w : World) :
  0 <= retries self ->
  let n := Z.to_nat (retries self + 1) in
  let out i := attempt_outcome self
                 (result (tr (calls w + i)%nat
                            (request_of self method endpoint data headers params))) in
  (exists k response d limiter w' evs,
      (k < n)%nat
      /\ (forall i, (i < k)%nat -> failed (out i) = true)
      /\ out k = inr (response, d)
      /\ _make_request tr self method endpoint data headers params w
         = (APIResponse.mk (Response.status response) (Some d)
              (Response.headers response) (clock w' - clock w)%Q
              (Response.status response <? 400) None,
            set_rate_limiter self limiter, w')
      /\ calls w' = (calls w + S k)%nat
      /\ trace w' = trace w ++ evs
      /\ skeleton evs = backoff_schedule k
      /\ transport_calls evs = S k)
  \/ (exists e limiter w' evs,
        (forall i, (i < n)%nat -> failed (out i) = true)
        /\ out (n - 1)%nat = inl e
        /\ _make_request tr self method endpoint data headers params w
           = (APIResponse.mk 0 None ∅ (clock w' - clock w)%Q false
                (Some (exc_str e)),
              set_rate_limiter self limiter, w')
        /\ calls w' = (calls w + n)%nat
        /\ trace w' = trace w ++ evs
        /\ skeleton evs = backoff_schedule (n - 1)
        /\ transport_calls evs = n).
Proof.
  intros Hr. unfold _make_request, request_of.
  pose proof (retry_loop_cases tr self
                (Request.mk method (target_url self endpoint) data
                   (default ∅ headers ∪ default_headers self) params None)
                (clock w) (rate_limiter self) w Hr) as H.
  rewrite set_rate_limiter_same in H. exact H.
Qed.

Lemma attempt_outcome_returns (self : t) (o : outcome) (response : Response.t) (d : body) :
  attempt_outcome self o = inr (response, d) -> o = Returns response.
Proof.
  unfold attempt_outcome. destruct o as [e|r]; [discriminate|].
  destruct (match session self with Some _ => _ | None => _ end); [discriminate|].
  intros H. injection H as -> _. reflexivity.
Qed.

Lemma attempt_outcome_raises (self : t) (e : raised) :
  attempt_outcome self (Raises e) = inl e.
Proof. reflexivity. Qed.

Lemma well_formed_not_failed (self : t) (response : Response.t) :
  well_formed response ->
  failed (attempt_outcome self (Returns response)) = false.
Proof.
  unfold well_formed, attempt_outcome, _parse_response, _parse_sync_response.
  intros Hwf. destruct (contains _ _).
  - destruct (Hwf eq_refl) as [j ->]. now destruct (session self).
  - now destruct (session self).
Qed.

(** C1. Under [retries >= 0], when the transport answers the first attempt
    with a well-formed response (any status, 500 included), the execution
    makes exactly one transport call and no back-off, whatever [retries] is,
    and the envelope has the response's status, [success = (status < 400)]
    and no [error]. *)
Theorem C1_no_retry_on_response (tr : transport) (self : t) (method endpoint : string)
    (data : option json) (headers : option (gmap string string))
    (params : option json) (w : World) (response : Response.t) :
  0 <= retries self ->
  (forall req, result (tr (calls w) req) = Returns response) ->
  well_formed response ->
  let '(envelope, _, w') :=
    _make_request tr self method endpoint data headers params w in
  (exists evs, trace w' = trace w ++ evs
               /\ transport_calls evs = 1%nat
               /\ skeleton evs = [Attempt])
  /\ calls w' = S (calls w)
  /\ APIResponse.status_code envelope = Response.status response
  /\ APIResponse.success envelope = (Response.status response <? 400)
  /\ APIResponse.error envelope = None.
Proof.
  intros Hr Hfirst Hwf.
  assert (H0 : failed (attempt_outcome self
                 (result (tr (calls w + 0)%nat
                    (request_of self method endpoint data headers params)))) = false).
  { rewrite Nat.add_0_r, Hfirst. now apply well_formed_not_failed. }
  destruct (make_request_cases tr self method endpoint data headers params w Hr)
    as [(k & resp & d & rl & w' & evs & Hk & Hfail & Hout & -> & Hc & Ht & Hsk & Htc)
       |(e & rl & w' & evs & Hfail & _)].
  - destruct k as [|k].
    + rewrite Nat.add_0_r, Hfirst in Hout. apply attempt_outcome_returns in Hout.
      injection Hout as <-. simpl.
      split; [exists evs; auto|]. split; [lia|auto].
    + rewrite (Hfail 0%nat) in H0 by lia. discriminate.
  - rewrite (Hfail 0%nat) in H0 by lia. discriminate.
Qed.

Lemma C1_no_retry_on_response_witness :
  let response := Response.mk 500 ∅ "Internal Server Error" (inl (Raised JSONDecodeError "")) in
  let tr : transport := fun _ _ => Reply 0 (Returns response) in
  let self := APIClient.mk "http://host" 30 3 None (RateLimiter.mk 100 60 []) None ∅ in
  let w := mkWorld 0 0 [] in
  let '(envelope, _, w') := _make_request tr self "GET" "/a" None None None w in
  (exists evs, trace w' = trace w ++ evs
               /\ transport_calls evs = 1%nat
               /\ skeleton evs = [Attempt])
  /\ calls w' = S (calls w)
  /\ APIResponse.status_code envelope = Response.status response
  /\ APIResponse.success envelope = (Response.status response <? 400)
  /\ APIResponse.error envelope = None.
Proof.
  intros response tr self w.
  apply (C1_no_retry_on_response tr self "GET" "/a" None None None w response).
  - simpl. lia.
  - reflexivity.
  - unfold well_formed. vm_compute. discriminate.
Defined.

(** C4 (as the code has it).  Under [retries = r >= 0], when the transport
    raises on every attempt, the execution makes exactly [r + 1] transport
    calls and returns [status_code = 0], no payload, empty headers,
    [success = false] and [error = str(e)] for the exception [e] of the last
    attempt -- whatever that string is, the empty one included. *)
Theorem C4_exhaustion (tr : transport) (self : t) (method endpoint : string)
    (data : option json) (headers : option (gmap string string))
    (params : option json) (w : World) :
  0 <= retries self ->
  (forall i req, exists e, result (tr i req) = Raises e) ->
  let '(envelope, _, w') :=
    _make_request tr self method endpoint data headers params w in
  (exists evs, trace w' = trace w ++ evs
               /\ transport_calls evs = Z.to_nat (retries self + 1))
  /\ calls w' = (calls w + Z.to_nat (retries self + 1))%nat
  /\ APIResponse.status_code envelope = 0
  /\ APIResponse.data envelope = None
  /\ APIResponse.headers envelope = ∅
  /\ APIResponse.success envelope = false
  /\ exists e,
       result (tr (calls w + Z.to_nat (retries self))%nat
                 (request_of self method endpoint data headers params)) = Raises e
       /\ APIResponse.error envelope = Some (exc_str e).
Proof.
  intros Hr Hraise.
  destruct (make_request_cases tr self method endpoint data headers params w Hr)
    as [(k & resp & d & rl & w' & evs & Hk & Hfail & Hout & _)
       |(e & rl & w' & evs & Hfail & Hlast & -> & Hc & Ht & Hsk & Htc)].
  - apply attempt_outcome_returns in Hout.
    destruct (Hraise (calls w + k)%nat
                (request_of self method endpoint data headers params)) as [e He].
    congruence.
  - simpl. split; [exists evs; auto|]. repeat (split; [assumption || reflexivity|]).
    replace (Z.to_nat (retries self + 1) - 1)%nat with (Z.to_nat (retries self))
      in Hlast by lia.
    destruct (Hraise (calls w + Z.to_nat (retries self))%nat
                (request_of self method endpoint data headers params)) as [e' He'].
    rewrite He', attempt_outcome_raises in Hlast. injection Hlast as <-.
    exists e'. split; [exact He'|reflexivity].
Qed.

Lemma C4_exhaustion_witness :
  let tr : transport := fun _ _ => Reply 30 (Raises (Raised OtherException "timed out")) in
  let self := APIClient.mk "http://x" 30 2 None (RateLimiter.mk 100 60 []) None ∅ in
  let w := mkWorld 0 0 [] in
  let '(envelope, _, w') := _make_request tr self "GET" "/a" None None None w in
  calls w' = 3%nat /\ APIResponse.error envelope = Some "timed out"%string.
Proof.
  intros tr self w.
  pose proof (C4_exhaustion tr self "GET" "/a" None None None w) as H.
  destruct (_make_request tr self "GET" "/a" None None None w) as [[envelope self'] w'].
  destruct H as (_ & Hc & _ & _ & _ & _ & e & He & Herr).
  - simpl. lia.
  - intros i req. eexists. reflexivity.
  - split; [exact Hc|]. rewrite Herr. simpl in He. injection He as <-. reflexivity.
Defined.

(** C4 fails as stated: an exception whose [str(e)] is empty (a bare
    [TimeoutError()], say) on every attempt leaves an empty [error]. *)
Lemma C4_counterexample :
  let tr : transport := fun _ _ => Reply 30 (Raises (Raised OtherException "")) in
  let self := APIClient.mk "http://x" 30 2 None (RateLimiter.mk 100 60 []) None ∅ in
  let w := mkWorld 0 0 [] in
  let envelope := fst (fst (_make_request tr self "GET" "/a" None None None w)) in
  0 <= retries self
  /\ (forall i req, exists e, result (tr i req) = Raises e)
  /\ APIResponse.error envelope = Some EmptyString
  /\ ~ (exists description,
          APIResponse.error envelope = Some description
          /\ description <> EmptyString).
Proof.
  intros tr self w envelope.
  assert (Herr : APIResponse.error envelope = Some EmptyString)
    by (vm_compute; reflexivity).
  split; [simpl; lia|]. split; [|split; [exact Herr|]].
  - intros i req. eexists. reflexivity.
  - intros (description & Hd & Hne). rewrite Herr in Hd.
    injection Hd as <-. now apply Hne.
Qed.

(** C5. Under [retries >= 0] and a transport whose responses carry HTTP
    status codes (at least 100), every returned envelope satisfies: if
    [success] then [status_code] is in [100, 399] and [error] is absent; if
    [status_code = 0] then [success] is false and [error] is present. *)
Theorem C5_envelope_invariant (tr : transport) (self : t) (method endpoint : string)
    (data : option json) (headers : option (gmap string string))
    (params : option json) (w : World) :
  0 <= retries self ->
  (forall i req response,
      result (tr i req) = Returns response -> 100 <= Response.status response) ->
  let envelope :=
    fst (fst (_make_request tr self method endpoint data headers params w)) in
  (APIResponse.success envelope = true ->
   100 <= APIResponse.status_code envelope <= 399
   /\ APIResponse.error envelope = None)
  /\ (APIResponse.status_code envelope = 0 ->
      APIResponse.success envelope = false
      /\ exists description, APIResponse.error envelope = Some description).
Proof.
  intros Hr Hstatus.
  destruct (make_request_cases tr self method endpoint data headers params w Hr)
    as [(k & resp & d & rl & w' & evs & Hk & Hfail & Hout & -> & _)
       |(e & rl & w' & evs & Hfail & Hlast & -> & _)]; simpl.
  - apply attempt_outcome_returns, Hstatus in Hout. split.
    + intros Hs. apply Z.ltb_lt in Hs. split; [lia|reflexivity].
    + intros H0. lia.
  - split; [discriminate|]. intros _. split; [reflexivity|eauto].
Qed.

Lemma C5_envelope_invariant_witness :
  let response := Response.mk 200 ∅ "ok" (inl (Raised JSONDecodeError "")) in
  let tr : transport := fun _ _ => Reply 0 (Returns response) in
  let self := APIClient.mk "http://host" 30 3 None (RateLimiter.mk 100 60 []) None ∅ in
  let envelope :=
    fst (fst (_make_request tr self "GET" "/a" None None None (mkWorld 0 0 []))) in
  (APIResponse.success envelope = true ->
   100 <= APIResponse.status_code envelope <= 399
   /\ APIResponse.error envelope = None)
  /\ (APIResponse.status_code envelope = 0 ->
      APIResponse.success envelope = false
      /\ exists description, APIResponse.error envelope = Some description).
Proof.
  intros response tr self.
  apply (C5_envelope_invariant tr self "GET" "/a" None None None (mkWorld 0 0 [])).
  - simpl. lia.
  - intros i req r H. injection H as <-. simpl. lia.
Defined.

(** C6. Under [retries = r >= 0], the attempts and back-off suspensions of
    an execution are, in order: attempt 0, [2^0] seconds, attempt 1, [2^1]
    seconds, ..., attempt [k], for some [k <= r].  Each attempt before the
    last failed and is followed by the suspension [2^i] of its index [i]; the
    last attempt is followed by none, and it is the last either because it
    did not fail or because it has index [r]. *)
Theorem C6_exponential_backoff (tr : transport) (self : t) (method endpoint : string)
    (data : option json) (headers : option (gmap string string))
    (params : option json) (w : World) :
  0 <= retries self ->
  let out i := attempt_outcome self
                 (result (tr (calls w + i)%nat
                            (request_of self method endpoint data headers params))) in
  let '(_, _, w') :=
    _make_request tr self method endpoint data headers params w in
  exists k evs,
    Z.of_nat k <= retries self
    /\ trace w' = trace w ++ evs
    /\ skeleton evs
       = flat_map (fun i => [Attempt; Backoff (2 ^ i)]) (range (Z.of_nat k))
         ++ [Attempt]
    /\ (forall i, (i < k)%nat -> failed (out i) = true)
    /\ (Z.of_nat k < retries self -> failed (out k) = false).
Proof.
  intros Hr out.
  destruct (make_request_cases tr self method endpoint data headers params w Hr)
    as [(k & resp & d & rl & w' & evs & Hk & Hfail & Hout & -> & Hc & Ht & Hsk & Htc)
       |(e & rl & w' & evs & Hfail & Hlast & -> & Hc & Ht & Hsk & Htc)].
  - exists k, evs. split; [lia|]. split; [exact Ht|]. split; [exact Hsk|].
    split; [exact Hfail|]. intros _. unfold out. now rewrite Hout.
  - exists (Z.to_nat (retries self + 1) - 1)%nat, evs.
    split; [lia|]. split; [exact Ht|]. split; [exact Hsk|].
    split; [intros i Hi; apply Hfail; lia|]. intros Hlt. lia.
Qed.

Lemma C6_exponential_backoff_witness :
  let ok := Response.mk 200 ∅ "ok" (inl (Raised JSONDecodeError "")) in
  let tr : transport := fun n _ =>
    if (n <? 3)%nat then Reply 1 (Raises (Raised OtherException "connection refused"))
    else Reply 1 (Returns ok) in
  let self := APIClient.mk "http://host" 30 5 None (RateLimiter.mk 100 60 []) None ∅ in
  let w := mkWorld 0 0 [] in
  let '(_, _, w') := _make_request tr self "GET" "/a" None None None w in
  skeleton (trace w')
  = [Attempt; Backoff 1; Attempt; Backoff 2; Attempt; Backoff 4; Attempt].
Proof.
  intros ok tr self w.
  pose proof (C6_exponential_backoff tr self "GET" "/a" None None None w) as H.
  cbv zeta in H.
  destruct (_make_request tr self "GET" "/a" None None None w) as [[envelope self'] w']
    eqn:E.
  destruct H as (k & evs & Hk & Ht & Hsk & Hfail & Hlast); [simpl; lia|].
  rewrite Ht. simpl. rewrite Hsk.
  destruct k as [|[|[|[|k]]]].
  - specialize (Hlast ltac:(simpl; lia)). discriminate Hlast.
  - specialize (Hlast ltac:(simpl; lia)). discriminate Hlast.
  - specialize (Hlast ltac:(simpl; lia)). discriminate Hlast.
  - reflexivity.
  - specialize (Hfail 3%nat ltac:(lia)). discriminate Hfail.
Defined.

(** *** The two execution paths *)

Lemma limiter_sleeps_request (at_time : Q) (rq : Request.t) :
  limiter_sleeps [request at_time rq] = [].
Proof. reflexivity. Qed.

Lemma apply_rate_limit_paths (a b : t) (w1 w2 : World) :
  rate_limiter a = rate_limiter b ->
  same_run w1 w2 ->
  rate_limiter (fst (_apply_rate_limit a w1))
  = rate_limiter (fst (_apply_rate_limit b w2))
  /\ same_run (snd (_apply_rate_limit a w1)) (snd (_apply_rate_limit b w2)).
Proof.
  intros Hrl (Hclock & Hcalls & Hsk & Hsl). unfold _apply_rate_limit.
  rewrite <- Hrl, <- Hclock.
  destruct (RateLimiter.can_proceed (clock w1) (rate_limiter a)) as [ok rl].
  destruct ok; simpl; [repeat split; assumption|].
  destruct (RateLimiter.wait_time (clock w1) rl) as [wt rl'].
  destruct (Qltb 0 wt); simpl; [|repeat split; assumption].
  split; [reflexivity|]. unfold same_run; simpl.
  rewrite !skeleton_app, !limiter_sleeps_app, Hclock, Hcalls, Hsk, Hsl.
  repeat split.
Qed.

Section Paths.

Variable tr : transport.

(** The transport answers both paths alike ... *)
Hypothesis same_outcomes : forall n rq1 rq2, tr n rq1 = tr n rq2.

(** ... and no body that is declared as JSON fails to decode with a
    [JSONDecodeError]. *)
Hypothesis bodies_decode :
  forall n rq response,
    result (tr n rq) = Returns response ->
    _parse_sync_response response = _parse_response response.

Lemma try_request_paths (a b : t) (req : Request.t) (start_time : Q) (w1 w2 : World) :
  rate_limiter a = rate_limiter b ->
  same_run w1 w2 ->
  let ra := try_request tr a req start_time w1 in
  let rb := try_request tr b req start_time w2 in
  fst (fst ra) = fst (fst rb)
  /\ rate_limiter (snd (fst ra)) = rate_limiter (snd (fst rb))
  /\ same_run (snd ra) (snd rb).
Proof.
  intros Hrl Hsame. cbv zeta. rewrite !try_request_unfold. cbv zeta. simpl fst. simpl snd.
  destruct (apply_rate_limit_paths a b w1 w2 Hrl Hsame)
    as (Hrl' & Hclock & Hcalls & Hsk & Hsl).
  rewrite <- Hclock, <- Hcalls.
  rewrite (same_outcomes _ (wire_request b req) (wire_request a req)).
  split; [|split; [exact Hrl'|]].
  - unfold attempt_outcome.
    destruct (result (tr _ (wire_request a req))) as [e|response] eqn:Hres;
      [reflexivity|].
    pose proof (bodies_decode _ _ _ Hres) as Hparse.
    destruct (session a), (session b); rewrite ?Hparse; reflexivity.
  - unfold same_run; simpl.
    rewrite !skeleton_app, !limiter_sleeps_app, Hsk, Hsl. repeat split.
Qed.

Lemma retry_loop_paths (req : Request.t) (start_time : Q) (attempts : list Z) :
  forall (last : option string) (a b : t) (w1 w2 : World),
    rate_limiter a = rate_limiter b ->
    retries a = retries b ->
    same_run w1 w2 ->
    let ra := retry_loop tr attempts last a req start_time w1 in
    let rb := retry_loop tr attempts last b req start_time w2 in
    fst (fst ra) = fst (fst rb)
    /\ rate_limiter (snd (fst ra)) = rate_limiter (snd (fst rb))
    /\ same_run (snd ra) (snd rb).
Proof.
  induction attempts as [|attempt rest IH]; intros last a b w1 w2 Hrl Hretries Hsame.
  - simpl. rewrite (proj1 Hsame). repeat split; solve [assumption | apply Hsame].
  - cbv zeta. cbn [retry_loop].
    destruct (try_request_paths a b req start_time w1 w2 Hrl Hsame)
      as (Hres & Hrl' & Hsame').
    destruct (try_request_frame tr a req start_time w1)
      as (la & _ & _ & wa & Ha & _).
    destruct (try_request_frame tr b req start_time w2)
      as (lb & _ & _ & wb & Hb & _).
    rewrite Ha, Hb in Hres, Hrl', Hsame'. rewrite Ha, Hb.
    simpl in Hres, Hrl', Hsame'.
    destruct (attempt_outcome a _) as [e|[response d]];
      destruct (attempt_outcome b _) as [e'|[response' d']];
      try discriminate Hres.
    + injection Hres as <-. apply IH.
      * exact Hrl'.
      * exact Hretries.
      * change (retries (set_rate_limiter a la)) with (retries a).
        change (retries (set_rate_limiter b lb)) with (retries b).
        rewrite <- Hretries.
        destruct (attempt <? retries a); [|exact Hsame'].
        destruct Hsame' as (Hclock & Hcalls & Hsk & Hsl).
        unfold same_run; simpl.
        rewrite !skeleton_app, !limiter_sleeps_app, Hclock, Hcalls, Hsk, Hsl.
        repeat split.
    + simpl. split; [congruence|]. split; [exact Hrl'|exact Hsame'].
Qed.

(** When the transport answers alike and every declared JSON body decodes,
    the path with a session and the path without give the same envelope,
    the same limiter, and the same attempts, back-offs and waits. *)
Lemma make_request_paths (self : t) (method endpoint : string)
    (data : option json) (headers : option (gmap string string))
    (params : option json) (w : World) :
  let blocking := _make_request tr self method endpoint data headers params w in
  let awaited :=
    _make_request tr (__aenter__ self) method endpoint data headers params w in
  fst (fst blocking) = fst (fst awaited)
  /\ rate_limiter (snd (fst blocking)) = rate_limiter (snd (fst awaited))
  /\ same_run (snd blocking) (snd awaited).
Proof.
  unfold _make_request. apply retry_loop_paths; try reflexivity.
  repeat split.
Qed.

End Paths.

(** C7 fails on the code.  The answer is a response that declares JSON and
    whose body does not decode.  Without a session the body is kept as text
    and the response is returned after one transport call; with a session
    the decoding error reaches the [except] clause, the attempt is retried,
    and the envelope reports [status_code = 0] with the error. *)
Lemma C7_paths_diverge :
  let response :=
    Response.mk 200 {[ "Content-Type"%string := "application/json"%string ]}
      "<html>busy</html>" (inl (Raised JSONDecodeError "Expecting value")) in
  let tr : transport := fun _ _ => Reply 0 (Returns response) in
  let w := mkWorld 0 0 [] in
  exists client,
    __init__ "http://host" 30 1 100 None = inr client
    /\ (let '(envelope, _, w') :=
          _make_request tr client "GET" "/a" None None None w in
        APIResponse.status_code envelope = 200
        /\ APIResponse.data envelope = Some (Text "<html>busy</html>")
        /\ APIResponse.success envelope = true
        /\ APIResponse.error envelope = None
        /\ calls w' = 1%nat)
    /\ (let '(envelope, _, w') :=
          _make_request tr (__aenter__ client) "GET" "/a" None None None w in
        APIResponse.status_code envelope = 0
        /\ APIResponse.data envelope = None
        /\ APIResponse.success envelope = false
        /\ APIResponse.error envelope = Some "Expecting value"%string
        /\ calls w' = 2%nat).
Proof.
  intros response tr w. eexists. split; [reflexivity|].
  split; vm_compute; repeat split.
Qed.

Lemma wire_request_url (self : t) (req : Request.t) :
  Request.url (wire_request self req) = Request.url req.
Proof. unfold wire_request. now destruct (session self). Qed.

Lemma transport_calls_positive (evs : list event) :
  (0 < transport_calls evs)%nat ->
  exists at_time rq, In (request at_time rq) evs.
Proof.
  unfold transport_calls. induction evs as [|[d|d|at_time rq] evs IH]; simpl;
    intros Hpos.
  - lia.
  - destruct (IH Hpos) as (t0 & rq & Hin). eauto.
  - destruct (IH Hpos) as (t0 & rq & Hin). eauto.
  - eauto.
Qed.

(** C9. For a client built on [base], the target of an execution on [path]
    is [b/p], where [b] is [base] without its trailing slashes and [p] is
    [path] without its leading slashes: exactly one separator between the
    two; every transport call of the execution carries that URL, and under
    [retries >= 0] there is such a call.  Bases ["http://host:8080/"] and
    ["http://host:8080"] with path ["/users"] both give
    ["http://host:8080/users"]. *)
Theorem C9_url_join (base : string) (timeout retries rate_limit : Z)
    (token : option string) (self : t) (endpoint : string) :
  __init__ base timeout retries rate_limit token = inr self ->
  (exists b p nb np,
      base = b +:+ repeated nb "/"
      /\ endpoint = repeated np "/" +:+ p
      /\ (forall pre, b <> pre +:+ "/")
      /\ (forall rest, p <> String "/" rest)
      /\ target_url self endpoint = b +:+ "/" +:+ p)
  /\ (forall tr method data headers params w,
        exists evs,
          trace (snd (_make_request tr self method endpoint data headers params w))
          = trace w ++ evs
          /\ Forall (fun e => match e with
                              | request _ rq => Request.url rq = target_url self endpoint
                              | _ => True
                              end) evs
          /\ (0 <= retries ->
              exists at_time rq,
                In (request at_time rq) evs
                /\ Request.url rq = target_url self endpoint))
  /\ (base = "http://host:8080/"%string \/ base = "http://host:8080"%string ->
      target_url self "/users" = "http://host:8080/users"%string).
Proof.
  intros Hinit.
  assert (Hbase : base_url self = rstrip "/" base).
  { unfold __init__ in Hinit. simpl in Hinit. now injection Hinit as <-. }
  assert (Hretries : APIClient.retries self = retries).
  { unfold __init__ in Hinit. simpl in Hinit. now injection Hinit as <-. }
  clear Hinit. split; [|split].
  - destruct (rstrip_spec "/" base) as (nb & Hb & Hbno).
    destruct (lstrip_spec "/" endpoint) as (np & Hp & Hpno).
    exists (rstrip "/" base), (lstrip "/" endpoint), nb, np.
    unfold target_url. rewrite Hbase. repeat split; auto.
  - intros tr method data headers params w.
    assert (Hsent : exists evs,
               trace (snd (_make_request tr self method endpoint data headers params w))
               = trace w ++ evs
               /\ Forall (fun e => match e with
                                   | request _ rq =>
                                       Request.url rq = target_url self endpoint
                                   | _ => True
                                   end) evs).
    { unfold _make_request.
      match goal with
      | |- context [retry_loop tr ?l None ?c ?rq ?st w] =>
          destruct (retry_loop_requests tr c rq st l None (rate_limiter c) w)
            as (evs & Ht & Hall)
      end.
      rewrite set_rate_limiter_same in Ht. exists evs. split; [exact Ht|].
      eapply List.Forall_impl; [|exact Hall].
      intros [d|d|at_time rq]; simpl; auto. intros ->. apply wire_request_url. }
    destruct Hsent as (evs & Ht & Hall). exists evs.
    split; [exact Ht|]. split; [exact Hall|]. intros Hr.
    rewrite <- Hretries in Hr.
    assert (Hpos : (0 < transport_calls evs)%nat).
    { destruct (make_request_cases tr self method endpoint data headers params w Hr)
        as [(k & resp & d & rl & w' & evs' & _ & _ & _ & E & _ & Ht' & _ & Htc)
           |(e & rl & w' & evs' & _ & _ & E & _ & Ht' & _ & Htc)];
        rewrite E in Ht; simpl in Ht; rewrite Ht' in Ht;
        apply app_inv_head in Ht; subst evs'; rewrite Htc; lia. }
    destruct (transport_calls_positive evs Hpos) as (at_time & rq & Hin).
    exists at_time, rq. split; [exact Hin|].
    rewrite List.Forall_forall in Hall. exact (Hall _ Hin).
  - unfold target_url. rewrite Hbase. intros [->| ->]; reflexivity.
Qed.

Lemma C9_url_join_witness :
  let tr : transport :=
    fun _ _ => Reply 0 (Returns (Response.mk 200 ∅ "[]" (inr (JArr [])))) in
  exists self,
    __init__ "http://host:8080/" 30 3 100 None = inr self
    /\ exists at_time rq,
         In (request at_time rq)
           (trace (snd (_make_request tr self "GET" "/users" None None None
                          (mkWorld 0 0 []))))
         /\ Request.url rq = "http://host:8080/users"%string.
Proof.
  intros tr. eexists. split; [reflexivity|].
  destruct (C9_url_join "http://host:8080/" 30 3 100 None _ "/users" eq_refl)
    as (_ & Hsent & Hexample).
  destruct (Hsent tr "GET"%string None None None (mkWorld 0 0 []))
    as (evs & Ht & _ & Hcall).
  destruct (Hcall ltac:(lia)) as (at_time & rq & Hin & Hurl).
  exists at_time, rq. split.
  - rewrite Ht. exact Hin.
  - rewrite Hurl. apply Hexample. left. reflexivity.
Defined.

(** A refusal by a limiter with a positive bound leaves a positive wait. *)
Lemma refused_wait_positive (now : Q) (limiter : RateLimiter.t) :
  0 < RateLimiter.max_requests limiter ->
  fst (RateLimiter.can_proceed now limiter) = false ->
  (0 < fst (RateLimiter.wait_time now (snd (RateLimiter.can_proceed now limiter))))%Q.
Proof.
  intros Hmax. unfold RateLimiter.can_proceed.
  set (kept := List.filter _ (RateLimiter.requests limiter)).
  destruct (Z.of_nat (length kept) <? RateLimiter.max_requests limiter) eqn:E;
    [discriminate|]. intros _. simpl. apply Z.ltb_ge in E.
  unfold RateLimiter.wait_time. simpl.
  destruct kept as [|r rs] eqn:Ek; [simpl in E; lia|]. simpl.
  assert (Hin : In (py_min r rs) kept) by (rewrite Ek; apply py_min_In).
  unfold kept in Hin. apply filter_In in Hin. destruct Hin as [_ Hage].
  apply Qltb_lt in Hage. unfold py_max.
  destruct (Qltb 0 _) eqn:Ew; [now apply Qltb_lt in Ew|].
  apply Qltb_ge in Ew. lra.
Qed.

(** C10. When [can_proceed] refuses, the rate-limit step of an attempt asks
    the limiter once, waits once for [wait_time()] (a wait of 0 is not
    slept; with a positive bound the wait is positive), and goes on to the
    transport call: the limiter is left with its pruned timestamps and the
    call is not recorded.  So the calls made within one window can outnumber
    [max_requests]: with a bound of 1 per 60 seconds, three failing attempts
    call the transport at seconds 0, 60 and 62. *)
Theorem C10_wait_does_not_record (self : t) (w : World) :
  fst (RateLimiter.can_proceed (clock w) (rate_limiter self)) = false ->
  let pruned := snd (RateLimiter.can_proceed (clock w) (rate_limiter self)) in
  let wait := fst (RateLimiter.wait_time (clock w) pruned) in
  let resumed := if Qltb 0 wait then do_time_sleep wait w else w in
  RateLimiter.requests pruned
  = List.filter
      (fun x => Qltb (clock w - x)
                  (inject_Z (RateLimiter.time_window (rate_limiter self))))
      (RateLimiter.requests (rate_limiter self))
  /\ _apply_rate_limit self w = (set_rate_limiter self pruned, resumed)
  /\ (0 < RateLimiter.max_requests (rate_limiter self) ->
      (0 < wait)%Q /\ resumed = do_time_sleep wait w)
  /\ (forall tr req start_time,
        let '(_, self', w') := try_request tr self req start_time w in
        rate_limiter self' = pruned
        /\ calls w' = S (calls w)
        /\ trace w' = trace resumed ++ [request (clock resumed) (wire_request self req)])
  /\ (let tr : transport :=
        fun _ _ => Reply 0 (Raises (Raised OtherException "connection refused")) in
      let client := APIClient.mk "http://x" 30 2 None (RateLimiter.mk 1 60 []) None ∅ in
      let '(_, client', w') :=
        _make_request tr client "GET" "/a" None None None (mkWorld 0 0 []) in
      call_times (trace w') = [0%Q; 60%Q; 62%Q]
      /\ RateLimiter.requests (rate_limiter client') = [62%Q]
      /\ RateLimiter.max_requests (rate_limiter client')
         < calls_in_window 60 (RateLimiter.time_window (rate_limiter client'))
             (call_times (trace w'))).
Proof.
  intros Hrefused pruned wait resumed.
  assert (Hstep : _apply_rate_limit self w = (set_rate_limiter self pruned, resumed)).
  { unfold _apply_rate_limit, resumed, wait, pruned.
    destruct (RateLimiter.can_proceed (clock w) (rate_limiter self)) as [ok rl].
    simpl in Hrefused. subst ok. simpl.
    destruct (RateLimiter.wait_time (clock w) rl) as [wt rl'] eqn:Ew.
    assert (rl' = rl) as ->.
    { unfold RateLimiter.wait_time in Ew.
      destruct (RateLimiter.requests rl); now injection Ew. }
    simpl. destruct (Qltb 0 wt); reflexivity. }
  split; [|split; [exact Hstep|split; [|split]]].
  - unfold pruned. revert Hrefused. unfold RateLimiter.can_proceed.
    destruct (Z.of_nat _ <? RateLimiter.max_requests _);
      [discriminate|reflexivity].
  - intros Hmax.
    assert (Hpos : (0 < wait)%Q) by now apply refused_wait_positive.
    split; [exact Hpos|]. unfold resumed.
    apply Qltb_lt in Hpos. now rewrite Hpos.
  - intros tr req start_time. rewrite try_request_unfold, Hstep. simpl.
    split; [reflexivity|]. split; [|reflexivity].
    unfold resumed. now destruct (Qltb 0 wait).
  - vm_compute. repeat split.
Qed.

Lemma C10_wait_does_not_record_witness :
  let self := APIClient.mk "http://x" 30 2 None (RateLimiter.mk 1 60 [0%Q]) None ∅ in
  let w := mkWorld 1 1 [] in
  _apply_rate_limit self w
  = (set_rate_limiter self (RateLimiter.mk 1 60 [0%Q]), do_time_sleep 59 w).
Proof.
  intros self w.
  pose proof (C10_wait_does_not_record self w eq_refl) as H.
  cbv zeta in H. destruct H as (_ & Hstep & _). rewrite Hstep. reflexivity.
Defined.

End APIClientSpec.

(** ** RateLimiter: histories, bounds and edge configurations *)

Module RateLimiterHistory.
Import RateLimiter RateLimiterProps.

Lemma can_proceed_config (now : Q) (self : t) :
  max_requests (snd (can_proceed now self)) = max_requests self
  /\ time_window (snd (can_proceed now self)) = time_window self.
Proof. unfold can_proceed. destruct (_ <? _); simpl; auto. Qed.

Lemma can_proceed_seq_config (nows : list Q) :
  forall self,
    max_requests (snd (can_proceed_seq nows self)) = max_requests self
    /\ time_window (snd (can_proceed_seq nows self)) = time_window self.
Proof.
  induction nows as [|now rest IH]; intros self; simpl; [auto|].
  destruct (can_proceed now self) as [b self1] eqn:E1.
  destruct (can_proceed_seq rest self1) as [bs self2] eqn:E2. simpl.
  specialize (IH self1). rewrite E2 in IH. simpl in IH.
  pose proof (can_proceed_config now self) as H. rewrite E1 in H. simpl in H.
  destruct IH, H. split; congruence.
Qed.

Lemma can_proceed_bounded_max (now : Q) (self : t) :
  Z.of_nat (length (requests self)) <= Z.max (max_requests self) 0 ->
  Z.of_nat (length (requests (snd (can_proceed now self))))
  <= Z.max (max_requests self) 0.
Proof.
  intros Hinv. unfold can_proceed.
  set (kept := List.filter _ (requests self)).
  destruct (Z.of_nat (length kept) <? max_requests self) eqn:E; simpl.
  - apply Z.ltb_lt in E. rewrite length_app. simpl. lia.
  - etransitivity; [|exact Hinv]. apply Nat2Z.inj_le, filter_length_le.
Qed.

(** X4. Whatever the clock readings are, a limiter that holds at most
    [max(max_requests, 0)] timestamps still does after any number of calls
    of [can_proceed]; its bound and its window are never changed. *)
Theorem X4_timestamps_bounded (nows : list Q) (self : t) :
  Z.of_nat (length (requests self)) <= Z.max (max_requests self) 0 ->
  let final := snd (can_proceed_seq nows self) in
  Z.of_nat (length (requests final)) <= Z.max (max_requests self) 0
  /\ max_requests final = max_requests self
  /\ time_window final = time_window self.
Proof.
  intros Hinv final. split; [|apply can_proceed_seq_config].
  unfold final. clear final. revert self Hinv.
  induction nows as [|now rest IH]; intros self Hinv; simpl; [exact Hinv|].
  destruct (can_proceed now self) as [b self1] eqn:E1.
  destruct (can_proceed_seq rest self1) as [bs self2] eqn:E2. simpl.
  pose proof (can_proceed_bounded_max now self Hinv) as H1.
  pose proof (can_proceed_config now self) as [Hm _].
  rewrite E1 in H1, Hm. simpl in H1, Hm.
  specialize (IH self1). rewrite E2, Hm in IH. simpl in IH. now apply IH.
Qed.

Lemma X4_timestamps_bounded_witness :
  let final := snd (can_proceed_seq [0%Q; 70%Q; 10%Q; 71%Q] (mk 2 60 [])) in
  Z.of_nat (length (requests final)) <= Z.max 2 0
  /\ max_requests final = 2
  /\ time_window final = 60.
Proof.
  apply (X4_timestamps_bounded [0%Q; 70%Q; 10%Q; 71%Q] (mk 2 60 [])).
  simpl. lia.
Defined.

Lemma filter_filter_implied {A} (f g : A -> bool) (l : list A) :
  (forall x, f x = true -> g x = true) ->
  List.filter f (List.filter g l) = List.filter f l.
Proof.
  intros Himp. induction l as [|x l IH]; simpl; [reflexivity|].
  destruct (g x) eqn:Eg; simpl.
  - now rewrite IH.
  - destruct (f x) eqn:Ef; [|exact IH]. apply Himp in Ef. congruence.
Qed.

Lemma in_window_earlier (p now : Q) (W : Z) (x : Q) :
  (p <= now)%Q -> in_window now W x = true -> in_window p W x = true.
Proof.
  unfold in_window. rewrite !Qltb_lt. intros Hle H. lra.
Qed.

Lemma in_window_self (now : Q) (W : Z) : 0 < W -> in_window now W now = true.
Proof.
  intros HW. unfold in_window. apply Qltb_lt.
  assert (0 < inject_Z W)%Q by (unfold Qlt; simpl; lia). lra.
Qed.

Lemma last_cons_default (x d : Q) (l : list Q) : List.last (x :: l) d = List.last l x.
Proof.
  revert x d. induction l as [|y l IH]; intros x d; [reflexivity|].
  change (List.last (x :: y :: l) d) with (List.last (y :: l) d).
  rewrite (IH y d). symmetry. apply (IH y x).
Qed.

(** The limiter holds exactly the admitted readings of the trailing window. *)
Lemma can_proceed_seq_window (N W : Z) (nows : list Q) :
  0 < W ->
  forall (p : Q) (R A : list Q),
    R = List.filter (in_window p W) A ->
    Forall (fun x => p <= x)%Q nows ->
    nondecreasing nows ->
    requests (snd (can_proceed_seq nows (mk N W R)))
    = List.filter (in_window (List.last nows p) W)
        (A ++ admitted nows (fst (can_proceed_seq nows (mk N W R)))).
Proof.
  intros HW. induction nows as [|now rest IH]; intros p R A HR Hp Hsorted.
  - simpl. now rewrite app_nil_r.
  - rewrite last_cons_default. simpl.
    destruct (can_proceed now (mk N W R)) as [b self1] eqn:E1.
    destruct (can_proceed_seq rest self1) as [bs self2] eqn:E2. simpl.
    assert (Hnow : (p <= now)%Q) by now inversion Hp.
    destruct Hsorted as [Hrest Hsorted].
    assert (Hkept : List.filter (in_window now W) R = List.filter (in_window now W) A).
    { rewrite HR. apply filter_filter_implied. intros x. now apply in_window_earlier. }
    unfold can_proceed in E1. simpl in E1.
    change (fun req_time : Q => Qltb (now - req_time) (inject_Z W))
      with (in_window now W) in E1.
    destruct (Z.of_nat (length (List.filter (in_window now W) R)) <? N);
      injection E1 as <- <-.
    + specialize (IH now (List.filter (in_window now W) R ++ [now]) (A ++ [now])).
      rewrite E2 in IH. simpl in IH. rewrite IH; auto.
      * now rewrite <- app_assoc.
      * rewrite List.filter_app, Hkept. simpl. now rewrite in_window_self.
    + specialize (IH now (List.filter (in_window now W) R) A).
      rewrite E2 in IH. simpl in IH. rewrite IH; auto.
Qed.

(** X5. With a positive window and clock readings that never go back, after
    any run of [can_proceed] on a fresh limiter the recorded timestamps are
    exactly the admitted readings that lie less than [window] seconds before
    the last reading, and there are at most [max(max_requests, 0)] of them:
    at the instant of every call, no more than [max_requests] admissions
    (this one included) fall in the trailing window. *)
Theorem X5_sliding_window_guarantee (N W : Z) (nows : list Q) :
  0 < W ->
  nondecreasing nows ->
  let run := can_proceed_seq nows (mk N W []) in
  let recent := List.filter (in_window (List.last nows 0%Q) W)
                  (admitted nows (fst run)) in
  requests (snd run) = recent
  /\ Z.of_nat (length recent) <= Z.max N 0.
Proof.
  intros HW Hsorted run recent.
  assert (Heq : requests (snd run) = recent).
  { unfold run, recent. destruct nows as [|now rest]; [reflexivity|].
    rewrite (can_proceed_seq_window N W (now :: rest) HW now [] []); auto.
    - rewrite !last_cons_default. reflexivity.
    - constructor; [lra|]. apply Hsorted. }
  split; [exact Heq|]. rewrite <- Heq.
  apply (X4_timestamps_bounded nows (mk N W [])). simpl. lia.
Qed.

Lemma X5_sliding_window_guarantee_witness :
  let run := can_proceed_seq [0%Q; 10%Q; 20%Q; 65%Q; 75%Q] (mk 2 60 []) in
  fst run = [true; true; false; true; true]
  /\ requests (snd run) = [65%Q; 75%Q].
Proof.
  pose proof (X5_sliding_window_guarantee 2 60 [0%Q; 10%Q; 20%Q; 65%Q; 75%Q]) as H.
  cbv zeta in H. destruct H as [Hreq _].
  - lia.
  - simpl. repeat split; repeat constructor; vm_compute; discriminate.
  - split; [reflexivity|]. rewrite Hreq. reflexivity.
Defined.

End RateLimiterHistory.

Module RateLimiterEdges.
Import RateLimiter RateLimiterProps RateLimiterHistory.

Lemma filter_length_lt {A} (p : A -> bool) (l : list A) (x : A) :
  In x l -> p x = false -> (length (List.filter p l) < length l)%nat.
Proof.
  induction l as [|y l IH]; intros Hin Hx; [destruct Hin|].
  simpl. destruct Hin as [->|Hin].
  - rewrite Hx. pose proof (filter_length_le p l). lia.
  - specialize (IH Hin Hx). destruct (p y); simpl; lia.
Qed.

Lemma py_max_ge_r (a b : Q) : (b <= py_max a b)%Q.
Proof.
  unfold py_max. destruct (Qltb a b) eqn:E; [lra|]. apply Qltb_ge in E. exact E.
Qed.

Lemma py_max_ge_l (a b : Q) : (a <= py_max a b)%Q.
Proof.
  unfold py_max. destruct (Qltb a b) eqn:E; [|lra]. apply Qltb_lt in E. lra.
Qed.

(** X6. After a refusal by a limiter with a positive bound that holds no
    more timestamps than that bound, waiting for [wait_time()] is enough:
    [can_proceed] asked [wait_time()] seconds later admits and records that
    instant. *)
Theorem X6_wait_time_suffices (now : Q) (self : t) :
  0 < max_requests self ->
  Z.of_nat (length (requests self)) <= max_requests self ->
  fst (can_proceed now self) = false ->
  let pruned := snd (can_proceed now self) in
  let later := (now + fst (wait_time now pruned))%Q in
  fst (can_proceed later pruned) = true
  /\ exists kept, requests (snd (can_proceed later pruned)) = kept ++ [later].
Proof.
  intros Hmax Hbound Hrefused pruned later.
  assert (Hsame : pruned = self) by now apply refused_keeps_state.
  unfold later. clear later. rewrite Hsame. clear pruned Hsame.
  set (later := (now + fst (wait_time now self))%Q).
  assert (Hold : exists m, In m (requests self)
                           /\ (inject_Z (time_window self) <= later - m)%Q).
  { unfold later, wait_time. destruct (requests self) as [|r rs] eqn:Er.
    - exfalso. revert Hrefused. unfold can_proceed. rewrite Er. simpl.
      replace (Z.of_nat 0 <? max_requests self) with true; [simpl; discriminate|].
      symmetry. apply Z.ltb_lt. lia.
    - exists (py_min r rs). split; [apply py_min_In|]. simpl.
      pose proof (py_max_ge_r 0
                    (inject_Z (time_window self) - (now - py_min r rs))). lra. }
  destruct Hold as (m & Hin & Hage).
  unfold can_proceed.
  set (kept := List.filter _ (requests self)).
  assert (Hlt : (length kept < length (requests self))%nat).
  { apply (filter_length_lt _ _ m Hin). now apply Qltb_ge. }
  replace (Z.of_nat (length kept) <? max_requests self) with true.
  - simpl. split; [reflexivity|]. now exists kept.
  - symmetry. apply Z.ltb_lt. lia.
Qed.

Lemma X6_wait_time_suffices_witness :
  let self := mk 2 60 [5%Q; 20%Q] in
  fst (can_proceed (30 + fst (wait_time 30 (snd (can_proceed 30 self))))
         (snd (can_proceed 30 self))) = true.
Proof.
  intros self.
  apply (X6_wait_time_suffices 30 self); [simpl; lia|simpl; lia|reflexivity].
Defined.

(** X7. A limiter whose bound is zero or negative refuses every call and
    never records anything; started empty it stays empty, so [wait_time()]
    is always 0. *)
Theorem X7_nonpositive_bound_refuses (nows : list Q) (self : t) (now : Q) :
  max_requests self <= 0 ->
  requests self = [] ->
  let run := can_proceed_seq nows self in
  Forall (eq false) (fst run)
  /\ length (fst run) = length nows
  /\ snd run = self
  /\ fst (wait_time now (snd run)) = 0%Q.
Proof.
  intros Hmax Hempty. cbv zeta.
  assert (Hstep : forall t, can_proceed t self = (false, self)).
  { intros t. unfold can_proceed. rewrite Hempty. simpl.
    replace (Z.of_nat 0 <? max_requests self) with false
      by (symmetry; apply Z.ltb_ge; lia).
    destruct self; simpl in *; now subst. }
  assert (Hrun : forall l, can_proceed_seq l self = (repeat false (length l), self)).
  { induction l as [|t l IH]; simpl; [reflexivity|]. now rewrite Hstep, IH. }
  rewrite Hrun. simpl. repeat split.
  - apply List.Forall_forall. intros b Hb. apply repeat_spec in Hb. now subst.
  - apply repeat_length.
  - unfold wait_time. now rewrite Hempty.
Qed.

Lemma X7_nonpositive_bound_refuses_witness :
  snd (can_proceed_seq [0%Q; 100%Q; 1000%Q] (mk 0 60 [])) = mk 0 60 [].
Proof.
  destruct (X7_nonpositive_bound_refuses [0%Q; 100%Q; 1000%Q] (mk 0 60 []) 0%Q)
    as (_ & _ & Hsame & _); [simpl; lia|reflexivity|exact Hsame].
Defined.

(** X8. A limiter with a positive bound and a window of zero or less never
    limits: asked at an instant that no recorded timestamp lies after, it
    drops every timestamp, admits, and holds that one instant only. *)
Theorem X8_nonpositive_window_admits (now : Q) (self : t) :
  0 < max_requests self ->
  time_window self <= 0 ->
  Forall (fun x => x <= now)%Q (requests self) ->
  can_proceed now self
  = (true, mk (max_requests self) (time_window self) [now]).
Proof.
  intros Hmax Hwin Hpast. unfold can_proceed.
  rewrite filter_drop_all.
  - cbn [length app]. replace (Z.of_nat 0 <? max_requests self) with true;
      [reflexivity|]. symmetry. apply Z.ltb_lt. lia.
  - eapply List.Forall_impl; [|exact Hpast]. intros x Hx. simpl in Hx.
    apply Qltb_ge.
    assert (inject_Z (time_window self) <= 0)%Q by (unfold Qle; simpl; lia). lra.
Qed.

Lemma X8_nonpositive_window_admits_witness :
  can_proceed 10 (mk 1 0 [10%Q]) = (true, mk 1 0 [10%Q]).
Proof.
  apply (X8_nonpositive_window_admits 10 (mk 1 0 [10%Q])).
  - simpl. lia.
  - simpl. lia.
  - repeat constructor. vm_compute. discriminate.
Defined.

Lemma nondecreasing_filter (p : Q -> bool) (l : list Q) :
  nondecreasing l -> nondecreasing (List.filter p l).
Proof.
  induction l as [|x l IH]; simpl; [auto|]. intros [Hx Hl].
  destruct (p x); simpl; [|now apply IH]. split; [|now apply IH].
  apply List.Forall_forall. intros y Hy. apply filter_In in Hy.
  rewrite List.Forall_forall in Hx. now apply Hx.
Qed.

Lemma admitted_subset (nows : list Q) :
  forall answers x, In x (admitted nows answers) -> In x nows.
Proof.
  induction nows as [|now rest IH]; intros [|[|] answers] x; simpl;
    try tauto.
  - intros [->|H]; [now left|right; eauto].
  - intros H. right. eauto.
Qed.

Lemma nondecreasing_admitted (nows : list Q) :
  forall answers, nondecreasing nows -> nondecreasing (admitted nows answers).
Proof.
  induction nows as [|now rest IH]; intros [|[|] answers]; simpl;
    try tauto.
  - intros [Hx Hl]. split; [|now apply IH].
    apply List.Forall_forall. intros y Hy. apply admitted_subset in Hy.
    rewrite List.Forall_forall in Hx. now apply Hx.
  - intros [_ Hl]. now apply IH.
Qed.

Lemma py_min_head (x : Q) (xs : list Q) :
  Forall (fun y => x <= y)%Q xs -> (py_min x xs == x)%Q.
Proof.
  intros Hx.
  assert (H1 : (py_min x xs <= x)%Q) by (apply py_min_le; now left).
  assert (H2 : (x <= py_min x xs)%Q).
  { destruct (py_min_In xs x) as [<-|Hin]; [lra|].
    rewrite List.Forall_forall in Hx. now apply Hx. }
  lra.
Qed.

(** X9. With a positive window and clock readings that never go back, the
    timestamps of a limiter that started empty are in non-decreasing order,
    so the oldest is the first one: [wait_time()] is then
    [max(0, window - (now - first))]. *)
Theorem X9_timestamps_ordered (N W : Z) (nows : list Q) (now : Q) :
  0 < W ->
  nondecreasing nows ->
  let final := snd (can_proceed_seq nows (mk N W [])) in
  nondecreasing (requests final)
  /\ (forall first rest,
        requests final = first :: rest ->
        (fst (wait_time now final)
         == Qmax 0 (inject_Z W - (now - first)))%Q).
Proof.
  intros HW Hsorted final.
  assert (Hord : nondecreasing (requests final)).
  { unfold final.
    destruct (X5_sliding_window_guarantee N W nows HW Hsorted) as [-> _].
    now apply nondecreasing_filter, nondecreasing_admitted. }
  split; [exact Hord|]. intros first rest Hreq.
  pose proof (can_proceed_seq_config nows (mk N W [])) as [_ Hwin].
  fold final in Hwin. simpl in Hwin.
  unfold wait_time. rewrite Hreq, Hwin. simpl.
  rewrite Hreq in Hord. destruct Hord as [Hfirst _].
  rewrite py_max_Qmax, (py_min_head first rest Hfirst). reflexivity.
Qed.

Lemma X9_timestamps_ordered_witness :
  nondecreasing
    (requests (snd (can_proceed_seq [0%Q; 10%Q; 65%Q] (mk 2 60 [])))).
Proof.
  refine (proj1 (X9_timestamps_ordered 2 60 [0%Q; 10%Q; 65%Q] 0%Q _ _)).
  - lia.
  - simpl. repeat split; repeat constructor; vm_compute; discriminate.
Defined.

End RateLimiterEdges.

(** ** APIClient: what every execution keeps *)

Module ExecutionProps.
Import APIClient APIClientProps APIClientSpec.

(** A property of the limiter and the world that the rate-limit step, a
    transport call and a back-off each keep is kept by the whole loop. *)
Lemma retry_loop_preserves (tr : transport) (P : RateLimiter.t -> World -> Prop) :
  (forall self w,
      P (rate_limiter self) w ->
      P (rate_limiter (fst (_apply_rate_limit self w)))
        (snd (_apply_rate_limit self w))) ->
  (forall rl w rq, P rl w -> P rl (snd (send tr rq w))) ->
  (forall rl w d, 0 <= d -> P rl w -> P rl (do_asyncio_sleep d w)) ->
  forall attempts last self req start_time w,
    P (rate_limiter self) w ->
    P (rate_limiter (snd (fst (retry_loop tr attempts last self req start_time w))))
      (snd (retry_loop tr attempts last self req start_time w)).
Proof.
  intros Hlimit Hsend Hsleep.
  induction attempts as [|attempt rest IH]; intros last self req start_time w HP;
    [exact HP|].
  cbn [retry_loop]. rewrite try_request_unfold. cbv zeta.
  specialize (Hlimit self w HP).
  specialize (Hsend _ _ (wire_request self req) Hlimit).
  unfold send in Hsend. simpl in Hsend.
  destruct (attempt_outcome self _) as [e|[response d]]; [|exact Hsend].
  apply IH. destruct (attempt <? _); [|exact Hsend].
  apply Hsleep; [|exact Hsend]. apply Z.pow_nonneg. lia.
Qed.

Lemma make_request_trace (tr : transport) (self : t) (method endpoint : string)
    (data : option json) (headers : option (gmap string string))
    (params : option json) (w : World) :
  exists evs,
    trace (snd (_make_request tr self method endpoint data headers params w))
    = trace w ++ evs
    /\ Forall (sends_only (request_of self method endpoint data headers params)) evs.
Proof.
  unfold _make_request, request_of.
  match goal with
  | |- context [retry_loop tr ?l None ?c ?rq ?st w] =>
      destruct (retry_loop_requests tr c rq st l None (rate_limiter c) w)
        as (evs & Ht & Hall)
  end.
  rewrite set_rate_limiter_same in Ht. now exists evs.
Qed.

Lemma wire_request_fields (self : t) (req : Request.t) :
  Request.method (wire_request self req) = Request.method req
  /\ Request.url (wire_request self req) = Request.url req
  /\ Request.json_ (wire_request self req) = Request.json_ req
  /\ Request.headers (wire_request self req) = Request.headers req
  /\ Request.params (wire_request self req) = Request.params req.
Proof. unfold wire_request. destruct (session self); simpl; auto. Qed.

Lemma make_request_calls (tr : transport) (self : t) (method endpoint : string)
    (data : option json) (headers : option (gmap string string))
    (params : option json) (w : World) :
  exists evs,
    trace (snd (_make_request tr self method endpoint data headers params w))
    = trace w ++ evs
    /\ every_call
         (fun rq =>
            Request.method rq = method
            /\ Request.url rq = target_url self endpoint
            /\ Request.json_ rq = data
            /\ Request.headers rq = default ∅ headers ∪ default_headers self
            /\ Request.params rq = params) evs.
Proof.
  destruct (make_request_trace tr self method endpoint data headers params w)
    as (evs & Ht & Hall).
  exists evs. split; [exact Ht|]. intros at_time rq Hin.
  rewrite List.Forall_forall in Hall. specialize (Hall _ Hin). simpl in Hall.
  subst rq. unfold request_of. apply wire_request_fields.
Qed.

Lemma merged_lookup (given : option (gmap string string))
    (defaults : gmap string string) (name : string) :
  (default ∅ given ∪ defaults) !! name
  = match given with
    | Some g => match g !! name with
                | Some value => Some value
                | None => defaults !! name
                end
    | None => defaults !! name
    end.
Proof.
  destruct given as [g|]; simpl.
  - destruct (g !! name) as [value|] eqn:E.
    + now apply lookup_union_Some_l.
    + now apply lookup_union_r.
  - apply lookup_union_r, lookup_empty.
Qed.

Lemma range_nonpositive (n : Z) : n <= 0 -> range n = [].
Proof. intros H. unfold range. now replace (Z.to_nat n) with 0%nat by lia. Qed.

Lemma apply_rate_limit_clock (self : t) (w : World) :
  (clock w <= clock (snd (_apply_rate_limit self w)))%Q
  /\ skeleton (trace (snd (_apply_rate_limit self w))) = skeleton (trace w).
Proof.
  unfold _apply_rate_limit.
  destruct (RateLimiter.can_proceed (clock w) (rate_limiter self)) as [ok rl].
  destruct ok; simpl; [split; [lra|reflexivity]|].
  destruct (RateLimiter.wait_time (clock w) rl) as [wt rl'].
  destruct (Qltb 0 wt) eqn:E; simpl; [|split; [lra|reflexivity]].
  apply Qltb_lt in E. split; [lra|].
  rewrite skeleton_app. simpl. now rewrite app_nil_r.
Qed.

Lemma backoff_total_app (a b : list step) :
  backoff_total (a ++ b) = backoff_total a + backoff_total b.
Proof.
  induction a as [|[|d] a IH]; simpl; [reflexivity|exact IH|].
  unfold backoff_total in *. simpl. rewrite IH. lia.
Qed.

Lemma backoff_total_schedule (k : nat) :
  backoff_total (backoff_schedule k) = 2 ^ Z.of_nat k - 1.
Proof.
  unfold backoff_schedule, range. rewrite Nat2Z.id, backoff_total_app.
  change (backoff_total [Attempt]) with 0. rewrite Z.add_0_r.
  induction k as [|k IH]; [reflexivity|].
  rewrite seq_S, map_app, flat_map_app, backoff_total_app, IH. simpl.
  rewrite Nat2Z.inj_succ, Z.pow_succ_r by lia. lia.
Qed.

End ExecutionProps.

Module ExecutionSpec.
Import APIClient APIClientProps APIClientSpec ExecutionProps.

(** X1. Every transport call of an execution carries the default headers
    with the caller's headers merged over them: for each header name the
    caller's value if the caller gave one, the client's default otherwise. *)
Theorem X1_caller_headers_win (tr : transport) (self : t) (method endpoint : string)
    (data : option json) (headers : option (gmap string string))
    (params : option json) (w : World) :
  exists evs,
    trace (snd (_make_request tr self method endpoint data headers params w))
    = trace w ++ evs
    /\ every_call
         (fun rq =>
            forall name : string,
              Request.headers rq !! name
              = match headers with
                | Some given =>
                    match given !! name with
                    | Some value => Some value
                    | None => default_headers self !! name
                    end
                | None => default_headers self !! name
                end) evs.
Proof.
  destruct (make_request_calls tr self method endpoint data headers params w)
    as (evs & Ht & Hall).
  exists evs. split; [exact Ht|]. intros at_time rq Hin name.
  destruct (Hall _ _ Hin) as (_ & _ & _ & -> & _). apply merged_lookup.
Qed.

(** X2. A client built with a non-empty token sends
    [Authorization: Bearer <token>] with every transport call unless the
    caller passes an [Authorization] header of its own, which then wins; a
    client built without a token, or with the empty string as token, sends
    no [Authorization] header unless the caller passes one. *)
Theorem X2_authorization_header (tr : transport) (base : string)
    (timeout retries rate_limit : Z) (token : option string) (self : t)
    (method endpoint : string) (data : option json)
    (headers : option (gmap string string)) (params : option json) (w : World) :
  __init__ base timeout retries rate_limit token = inr self ->
  exists evs,
    trace (snd (_make_request tr self method endpoint data headers params w))
    = trace w ++ evs
    /\ every_call
         (fun rq =>
            Request.headers rq !! "Authorization"%string
            = match headers ≫= (fun given => given !! "Authorization"%string) with
              | Some value => Some value
              | None =>
                  match token with
                  | Some (String a tok) => Some ("Bearer " +:+ String a tok)
                  | _ => None
                  end
              end) evs.
Proof.
  intros Hinit. unfold __init__ in Hinit. simpl in Hinit. injection Hinit as <-.
  match goal with
  | |- context [_make_request tr ?c] =>
      destruct (make_request_calls tr c method endpoint data headers params w)
        as (evs & Ht & Hall)
  end.
  exists evs. split; [exact Ht|]. intros at_time rq Hin.
  destruct (Hall _ _ Hin) as (_ & _ & _ & -> & _).
  rewrite merged_lookup. simpl default_headers.
  assert (Hdefault :
    (match token with
     | Some (String a tok) =>
         <["Authorization"%string := "Bearer " +:+ String a tok]> base_headers
     | _ => base_headers
     end) !! "Authorization"%string
    = match token with
      | Some (String a tok) => Some ("Bearer " +:+ String a tok)
      | _ => None
      end).
  { destruct token as [[|a tok]|]; try reflexivity; apply lookup_insert_eq. }
  destruct headers as [given|]; simpl; [|exact Hdefault].
  destruct (given !! "Authorization"%string); [reflexivity|exact Hdefault].
Qed.

Lemma X2_authorization_header_witness :
  let tr : transport := fun _ _ => Reply 0 (Returns (Response.mk 200 ∅ "ok" (inr JNull))) in
  exists self evs,
    __init__ "http://host" 30 3 100 (Some "s3cret"%string) = inr self
    /\ trace (snd (_make_request tr self "GET" "/a" None None None (mkWorld 0 0 [])))
       = [] ++ evs
    /\ every_call
         (fun rq => Request.headers rq !! "Authorization"%string
                    = Some "Bearer s3cret"%string) evs.
Proof.
  intros tr. eexists.
  destruct (X2_authorization_header tr "http://host" 30 3 100 (Some "s3cret"%string)
              _ "GET" "/a" None None None (mkWorld 0 0 []) eq_refl)
    as (evs & Ht & Hall).
  exists evs. split; [reflexivity|]. split; [exact Ht|exact Hall].
Defined.

(** X3. With [retries < 0] the loop body never runs: no rate-limit step, no
    transport call, no sleep; the envelope is [status_code = 0], no payload,
    [success = false] and no [error] at all. *)
Theorem X3_negative_retries (tr : transport) (self : t) (method endpoint : string)
    (data : option json) (headers : option (gmap string string))
    (params : option json) (w : World) :
  retries self < 0 ->
  _make_request tr self method endpoint data headers params w
  = (APIResponse.mk 0 None ∅ (clock w - clock w)%Q false None, self, w).
Proof.
  intros Hneg. unfold _make_request. rewrite range_nonpositive by lia. reflexivity.
Qed.

Lemma X3_negative_retries_witness :
  let tr : transport := fun _ _ => Reply 0 (Returns (Response.mk 200 ∅ "ok" (inr JNull))) in
  let self := APIClient.mk "http://host" 30 (-1) None (RateLimiter.mk 100 60 []) None ∅ in
  APIResponse.error
    (fst (fst (_make_request tr self "GET" "/a" None None None (mkWorld 0 0 []))))
  = None.
Proof.
  intros tr self.
  rewrite (X3_negative_retries tr self "GET" "/a" None None None (mkWorld 0 0 []));
    [reflexivity|simpl; lia].
Defined.

(** X10. The convenience operations differ only in the request they send:
    [get] and [sync_get] send [GET] with the query and never a body;
    [post], [sync_post], [put] and [patch] send their method with the body
    and never a query; [delete] sends [DELETE] with neither.  All of them
    send to the joined URL. *)
Theorem X10_convenience_requests (tr : transport) (self : t) (endpoint : string)
    (data params : option json) (headers : option (gmap string string)) (w : World) :
  let sent (run : APIResponse.t * t * World) (method : string)
           (body query : option json) :=
    exists evs,
      trace (snd run) = trace w ++ evs
      /\ every_call
           (fun rq =>
              Request.method rq = method
              /\ Request.url rq = target_url self endpoint
              /\ Request.json_ rq = body
              /\ Request.params rq = query) evs in
  sent (get tr self endpoint params headers w) "GET"%string None params
  /\ sent (sync_get tr self endpoint params headers w) "GET"%string None params
  /\ sent (post tr self endpoint data headers w) "POST"%string data None
  /\ sent (sync_post tr self endpoint data headers w) "POST"%string data None
  /\ sent (put tr self endpoint data headers w) "PUT"%string data None
  /\ sent (patch tr self endpoint data headers w) "PATCH"%string data None
  /\ sent (delete tr self endpoint headers w) "DELETE"%string None None.
Proof.
  assert (H : forall method body query,
             exists evs,
               trace (snd (_make_request tr self method endpoint body headers query w))
               = trace w ++ evs
               /\ every_call
                    (fun rq =>
                       Request.method rq = method
                       /\ Request.url rq = target_url self endpoint
                       /\ Request.json_ rq = body
                       /\ Request.params rq = query) evs).
  { intros method body query.
    destruct (make_request_calls tr self method endpoint body headers query w)
      as (evs & Ht & Hall).
    exists evs. split; [exact Ht|]. intros at_time rq Hin.
    destruct (Hall _ _ Hin) as (? & ? & ? & _ & ?). auto. }
  cbv zeta. unfold get, sync_get, post, sync_post, put, patch, delete.
  repeat split; apply H.
Qed.

Lemma sync_outcome (self : t) (response : Response.t) :
  session self = None ->
  (forall e, Response.json_ response = inl e -> exc e = JSONDecodeError) ->
  attempt_outcome self (Returns response)
  = inr (response,
         if contains "application/json" (content_type response)
         then match Response.json_ response with
              | inr j => Structured j
              | inl _ => Text (Response.text response)
              end
         else Text (Response.text response)).
Proof.
  intros Hsession Hjson. unfold attempt_outcome, _parse_sync_response.
  rewrite Hsession. destruct (contains _ _); [|reflexivity].
  destruct (Response.json_ response) as [[c msg]|j]; [|reflexivity].
  specialize (Hjson _ eq_refl). simpl in Hjson. now subst c.
Qed.

(** X11. Without a session, a response whose body either decodes or fails
    to decode with a [JSONDecodeError] is returned after one transport call
    whatever its content type: the payload is the decoded document when the
    content type names JSON and the body decodes, and the raw text in every
    other case. *)
Theorem X11_blocking_path_falls_back_to_text (tr : transport) (self : t)
    (method endpoint : string) (data : option json)
    (headers : option (gmap string string)) (params : option json)
    (w : World) (response : Response.t) :
  0 <= retries self ->
  session self = None ->
  (forall req, result (tr (calls w) req) = Returns response) ->
  (forall e, Response.json_ response = inl e -> exc e = JSONDecodeError) ->
  let '(envelope, _, w') :=
    _make_request tr self method endpoint data headers params w in
  calls w' = S (calls w)
  /\ APIResponse.status_code envelope = Response.status response
  /\ APIResponse.error envelope = None
  /\ APIResponse.data envelope
     = Some (if contains "application/json" (content_type response)
             then match Response.json_ response with
                  | inr j => Structured j
                  | inl _ => Text (Response.text response)
                  end
             else Text (Response.text response)).
Proof.
  intros Hr Hsession Hfirst Hjson.
  pose proof (sync_outcome self response Hsession Hjson) as Hout0.
  destruct (make_request_cases tr self method endpoint data headers params w Hr)
    as [(k & resp & d & rl & w' & evs & Hk & Hfail & Hout & -> & Hc & _)
       |(e & rl & w' & evs & Hfail & _)].
  - destruct k as [|k].
    + rewrite Nat.add_0_r, Hfirst, Hout0 in Hout. injection Hout as <- <-.
      simpl. split; [lia|auto].
    + specialize (Hfail 0%nat ltac:(lia)).
      rewrite Nat.add_0_r, Hfirst, Hout0 in Hfail. discriminate.
  - specialize (Hfail 0%nat ltac:(lia)).
    rewrite Nat.add_0_r, Hfirst, Hout0 in Hfail. discriminate.
Qed.

Lemma X11_blocking_path_falls_back_to_text_witness :
  let response :=
    Response.mk 502 {[ "Content-Type"%string := "application/json"%string ]}
      "Bad Gateway" (inl (Raised JSONDecodeError "Expecting value")) in
  let tr : transport := fun _ _ => Reply 0 (Returns response) in
  let self := APIClient.mk "http://host" 30 3 None (RateLimiter.mk 100 60 []) None ∅ in
  let '(envelope, _, w') :=
    _make_request tr self "GET" "/a" None None None (mkWorld 0 0 []) in
  calls w' = 1%nat /\ APIResponse.data envelope = Some (Text "Bad Gateway").
Proof.
  intros response tr self.
  pose proof (X11_blocking_path_falls_back_to_text tr self "GET" "/a" None None None
                (mkWorld 0 0 []) response) as H.
  destruct (_make_request tr self "GET" "/a" None None None (mkWorld 0 0 []))
    as [[envelope self'] w'].
  destruct H as (Hc & _ & _ & Hd).
  - simpl. lia.
  - reflexivity.
  - reflexivity.
  - intros e He. injection He as <-. reflexivity.
  - split; [exact Hc|]. rewrite Hd. reflexivity.
Defined.

(** X12. A client whose limiter has a bound of zero or less and no timestamp
    is not blocked by it: every [can_proceed] refuses, [wait_time()] is 0, so
    no execution ever sleeps for the limiter or records a timestamp, and the
    transport is called all the same. *)
Theorem X12_nonpositive_rate_limit_is_no_limit (tr : transport) (self : t)
    (method endpoint : string) (data : option json)
    (headers : option (gmap string string)) (params : option json) (w : World) :
  0 <= retries self ->
  RateLimiter.max_requests (rate_limiter self) <= 0 ->
  RateLimiter.requests (rate_limiter self) = [] ->
  let '(_, self', w') :=
    _make_request tr self method endpoint data headers params w in
  self' = self
  /\ limiter_sleeps (trace w') = limiter_sleeps (trace w)
  /\ (calls w < calls w')%nat.
Proof.
  intros Hr Hmax Hempty.
  pose (P := fun (rl : RateLimiter.t) (w' : World) =>
               rl = rate_limiter self
               /\ limiter_sleeps (trace w') = limiter_sleeps (trace w)).
  assert (HP : P (rate_limiter
                    (snd (fst (_make_request tr self method endpoint data headers
                                 params w))))
                 (snd (_make_request tr self method endpoint data headers params w))).
  { unfold _make_request. apply (retry_loop_preserves tr P).
    - intros c w0 [Hrl Hsl]. unfold _apply_rate_limit. rewrite Hrl.
      assert (Hstep : RateLimiter.can_proceed (clock w0) (rate_limiter self)
                      = (false, rate_limiter self)).
      { unfold RateLimiter.can_proceed. rewrite Hempty. cbn [List.filter length].
        replace (Z.of_nat 0 <? RateLimiter.max_requests (rate_limiter self))
          with false by (symmetry; apply Z.ltb_ge; lia).
        destruct (rate_limiter self); simpl in *; now subst. }
      rewrite Hstep. simpl. unfold RateLimiter.wait_time. rewrite Hempty. simpl.
      split; [reflexivity|exact Hsl].
    - intros rl w0 rq [Hrl Hsl]. split; [exact Hrl|]. simpl.
      rewrite limiter_sleeps_app, Hsl. simpl. now rewrite app_nil_r.
    - intros rl w0 d _ [Hrl Hsl]. split; [exact Hrl|]. simpl.
      rewrite limiter_sleeps_app, Hsl. simpl. now rewrite app_nil_r.
    - split; reflexivity. }
  destruct HP as [Hrl Hsl].
  destruct (make_request_cases tr self method endpoint data headers params w Hr)
    as [(k & resp & d & rl & w' & evs & _ & _ & _ & E & Hc & _)
       |(e & rl & w' & evs & _ & _ & E & Hc & _)];
    rewrite E in Hrl, Hsl |- *; simpl in Hrl, Hsl.
  - split; [|split; [exact Hsl|lia]].
    rewrite Hrl. apply set_rate_limiter_same.
  - split; [|split; [exact Hsl|lia]].
    rewrite Hrl. apply set_rate_limiter_same.
Qed.

Lemma X12_nonpositive_rate_limit_is_no_limit_witness :
  let tr : transport := fun _ _ => Reply 0 (Returns (Response.mk 200 ∅ "ok" (inr JNull))) in
  let self := APIClient.mk "http://host" 30 3 None (RateLimiter.mk 0 60 []) None ∅ in
  let '(_, self', w') :=
    _make_request tr self "GET" "/a" None None None (mkWorld 0 0 []) in
  self' = self /\ limiter_sleeps (trace w') = [] /\ (0 < calls w')%nat.
Proof.
  intros tr self.
  apply (X12_nonpositive_rate_limit_is_no_limit tr self "GET" "/a" None None None
           (mkWorld 0 0 [])); simpl; [lia|lia|reflexivity].
Defined.

(** X13. When no transport call takes negative time, the [response_time]
    of an envelope is never negative and covers all the back-off the
    execution went through; an execution that ends with an [error] (every
    attempt failed, [retries = r >= 0]) has waited [1 + 2 + ... + 2^(r-1)]
    seconds of back-off, so its [response_time] is at least [2^r - 1]. *)
Theorem X13_response_time_covers_backoff (tr : transport) (self : t)
    (method endpoint : string) (data : option json)
    (headers : option (gmap string string)) (params : option json) (w : World) :
  0 <= retries self ->
  (forall n rq, 0 <= took (tr n rq))%Q ->
  let envelope :=
    fst (fst (_make_request tr self method endpoint data headers params w)) in
  (0 <= APIResponse.response_time envelope)%Q
  /\ (APIResponse.error envelope <> None ->
      (inject_Z (2 ^ retries self - 1) <= APIResponse.response_time envelope)%Q).
Proof.
  intros Hr Htook.
  pose (P := fun (_ : RateLimiter.t) (w' : World) =>
               (clock w + inject_Z (backoff_total (skeleton (trace w')))
                - inject_Z (backoff_total (skeleton (trace w))) <= clock w')%Q).
  assert (HP : P (rate_limiter
                    (snd (fst (_make_request tr self method endpoint data headers
                                 params w))))
                 (snd (_make_request tr self method endpoint data headers params w))).
  { unfold _make_request. apply (retry_loop_preserves tr P).
    - intros c w0 Hw0. unfold P in *.
      destruct (apply_rate_limit_clock c w0) as [Hclock ->]. lra.
    - intros rl w0 rq Hw0. unfold P in *. simpl.
      rewrite skeleton_app, backoff_total_app. simpl.
      change (backoff_total [Attempt]) with 0. rewrite Z.add_0_r.
      specialize (Htook (calls w0) rq). lra.
    - intros rl w0 d Hd Hw0. unfold P in *. simpl.
      rewrite skeleton_app, backoff_total_app. simpl.
      change (backoff_total [Backoff d]) with (d + 0).
      rewrite Z.add_0_r, inject_Z_plus. lra.
    - unfold P. lra. }
  unfold P in HP. clear P.
  destruct (make_request_cases tr self method endpoint data headers params w Hr)
    as [(k & resp & d & rl & w' & evs & _ & _ & _ & E & _ & Ht & Hsk & _)
       |(e & rl & w' & evs & _ & _ & E & _ & Ht & Hsk & _)];
    cbv zeta; rewrite E in HP |- *; simpl in HP |- *;
    rewrite Ht, skeleton_app, backoff_total_app, Hsk, backoff_total_schedule,
      inject_Z_plus in HP.
  - assert (0 <= inject_Z (2 ^ Z.of_nat k - 1))%Q.
    { assert (0 < 2 ^ Z.of_nat k) by (apply Z.pow_pos_nonneg; lia).
      unfold Qle. simpl. lia. }
    split; [lra|]. intros Hne. now contradiction Hne.
  - replace (Z.of_nat (Z.to_nat (retries self + 1) - 1)) with (retries self)
      in HP by lia.
    assert (0 <= inject_Z (2 ^ retries self - 1))%Q.
    { assert (0 < 2 ^ retries self) by (apply Z.pow_pos_nonneg; lia).
      unfold Qle. simpl. lia. }
    split; [lra|]. intros _. lra.
Qed.

Lemma X13_response_time_covers_backoff_witness :
  let tr : transport := fun _ _ => Reply 30 (Raises (Raised OtherException "timed out")) in
  let self := APIClient.mk "http://x" 30 2 None (RateLimiter.mk 100 60 []) None ∅ in
  let envelope :=
    fst (fst (_make_request tr self "GET" "/a" None None None (mkWorld 0 0 []))) in
  (inject_Z (2 ^ 2 - 1) <= APIResponse.response_time envelope)%Q.
Proof.
  intros tr self envelope.
  refine (proj2 (X13_response_time_covers_backoff tr self "GET" "/a" None None None
                   (mkWorld 0 0 []) _ _) _).
  - simpl. lia.
  - intros n rq. vm_compute. discriminate.
  - vm_compute. discriminate.
Defined.

(** X14. Under [retries = r >= 0] an execution calls the transport at least
    once and at most [r + 1] times, whatever the transport answers. *)
Theorem X14_transport_calls_bounded (tr : transport) (self : t)
    (method endpoint : string) (data : option json)
    (headers : option (gmap string string)) (params : option json) (w : World) :
  0 <= retries self ->
  let '(_, _, w') :=
    _make_request tr self method endpoint data headers params w in
  exists evs,
    trace w' = trace w ++ evs
    /\ calls w' = (calls w + transport_calls evs)%nat
    /\ 1 <= Z.of_nat (transport_calls evs) <= retries self + 1.
Proof.
  intros Hr.
  destruct (make_request_cases tr self method endpoint data headers params w Hr)
    as [(k & resp & d & rl & w' & evs & Hk & _ & _ & -> & Hc & Ht & _ & Htc)
       |(e & rl & w' & evs & _ & _ & -> & Hc & Ht & _ & Htc)];
    exists evs; rewrite Htc; repeat split; auto; lia.
Qed.

Lemma X14_transport_calls_bounded_witness :
  let tr : transport := fun _ _ => Reply 0 (Raises (Raised OtherException "refused")) in
  let self := APIClient.mk "http://x" 30 2 None (RateLimiter.mk 100 60 []) None ∅ in
  let '(_, _, w') := _make_request tr self "GET" "/a" None None None (mkWorld 0 0 []) in
  exists evs,
    trace w' = [] ++ evs
    /\ calls w' = (0 + transport_calls evs)%nat
    /\ 1 <= Z.of_nat (transport_calls evs) <= 2 + 1.
Proof.
  intros tr self.
  apply (X14_transport_calls_bounded tr self "GET" "/a" None None None (mkWorld 0 0 [])).
  simpl. lia.
Defined.

(** X15. Under [retries >= 0], whatever the transport does, an envelope
    never carries both an error and a payload.  With an error it has
    [status_code = 0], [success = false], no headers and no payload.
    Without one it has the status and the headers of a response the
    transport returned, [success] exactly when that status is below 400,
    and as payload what the parser of the branch taken made of that
    response's body, which is [None] when the body is the JSON document
    [null]: an envelope with neither payload nor error exists. *)
Theorem X15_payload_or_error (tr : transport) (self : t)
    (method endpoint : string) (data : option json)
    (headers : option (gmap string string)) (params : option json) (w : World) :
  0 <= retries self ->
  let envelope :=
    fst (fst (_make_request tr self method endpoint data headers params w)) in
  (exists description,
      APIResponse.error envelope = Some description
      /\ python_data (APIResponse.data envelope) = None
      /\ APIResponse.status_code envelope = 0
      /\ APIResponse.success envelope = false
      /\ APIResponse.headers envelope = ∅)
  \/ (exists n rq response payload,
        result (tr n rq) = Returns response
        /\ attempt_outcome self (Returns response) = inr (response, payload)
        /\ APIResponse.error envelope = None
        /\ python_data (APIResponse.data envelope) = python_data (Some payload)
        /\ APIResponse.status_code envelope = Response.status response
        /\ APIResponse.headers envelope = Response.headers response
        /\ APIResponse.success envelope = (Response.status response <? 400)).
Proof.
  intros Hr.
  destruct (make_request_cases tr self method endpoint data headers params w Hr)
    as [(k & resp & d & rl & w' & evs & _ & _ & Hout & E & _)
       |(e & rl & w' & evs & _ & _ & E & _)];
    cbv zeta; rewrite E; simpl.
  - right. pose proof (attempt_outcome_returns _ _ _ _ Hout) as Hret.
    rewrite Hret in Hout.
    exists (calls w + k)%nat, (request_of self method endpoint data headers params),
      resp, d. repeat split; auto.
  - left. exists (exc_str e). repeat split; auto.
Qed.

Lemma X15_payload_or_error_witness :
  let response :=
    Response.mk 200 {[ "Content-Type"%string := "application/json"%string ]}
      "null" (inr JNull) in
  let tr : transport := fun _ _ => Reply 0 (Returns response) in
  let self := APIClient.mk "http://x" 30 0 None (RateLimiter.mk 100 60 []) None ∅ in
  let envelope :=
    fst (fst (_make_request tr self "GET" "/a" None None None (mkWorld 0 0 []))) in
  python_data (APIResponse.data envelope) = None
  /\ APIResponse.error envelope = None.
Proof.
  intros response tr self envelope.
  destruct (X15_payload_or_error tr self "GET" "/a" None None None (mkWorld 0 0 []))
    as [(description & Herr & _)
       |(n & rq & r & payload & Hret & Hout & Herr & Hdata & _)].
  - simpl. lia.
  - vm_compute in Herr. discriminate Herr.
  - fold envelope in Herr, Hdata. split; [|exact Herr].
    rewrite Hdata. injection Hret as <-.
    vm_compute in Hout. injection Hout as <-. reflexivity.
Defined.

End ExecutionSpec.

(** ** MockAPIServer *)

Module MockAPIServerSpec.
Import MockAPIServer.

Lemma upper_ascii_colon (c : ascii) : upper_ascii c = ":"%char -> c = ":"%char.
Proof.
  destruct c as [[] [] [] [] [] [] [] []]; vm_compute; intros H;
    solve [reflexivity | discriminate H].
Qed.

Lemma has_char_upper (s : string) :
  has_char ":" s = false -> has_char ":" (upper s) = false.
Proof.
  induction s as [|a s IH]; simpl; [auto|]. intros H.
  apply orb_false_iff in H. destruct H as [Ha Hs].
  apply orb_false_iff. split; [|now apply IH].
  apply Ascii.eqb_neq. intros Hup. apply upper_ascii_colon in Hup.
  apply Ascii.eqb_neq in Ha. contradiction.
Qed.

(** Two texts without a colon that agree once [":" ++ rest] is appended
    are equal, and so are the rests. *)
Lemma colon_split (a b e1 e2 : string) :
  has_char ":" a = false ->
  has_char ":" b = false ->
  a +:+ ":" +:+ e1 = b +:+ ":" +:+ e2 ->
  a = b /\ e1 = e2.
Proof.
  revert b. induction a as [|x a IH]; intros [|y b] Ha Hb Heq;
    repeat rewrite ?append_empty, ?append_cons in Heq.
  - injection Heq as ->. auto.
  - injection Heq as <- _. simpl in Hb. discriminate Hb.
  - injection Heq as -> _. simpl in Ha. discriminate Ha.
  - injection Heq as -> Heq.
    simpl in Ha, Hb. apply orb_false_iff in Ha, Hb.
    destruct (IH b (proj2 Ha) (proj2 Hb) Heq) as [-> ->]. auto.
Qed.

Lemma key_injective (m1 e1 m2 e2 : string) :
  has_char ":" m1 = false ->
  has_char ":" m2 = false ->
  key m1 e1 = key m2 e2 ->
  upper m1 = upper m2 /\ e1 = e2.
Proof.
  intros H1 H2. unfold key. apply colon_split; now apply has_char_upper.
Qed.

(** X16. A response added for a method and an endpoint is what
    [get_response] returns for that endpoint and any spelling of the method
    that differs only in the case of its letters; a later [add_response]
    for the same pair replaces it. *)
Theorem X16_added_response_is_served (now : Q) (m1 m2 endpoint : string)
    (old response : json) (self : t) :
  upper m1 = upper m2 ->
  fst (get_response now m2 endpoint (add_response m1 endpoint response self))
  = response
  /\ fst (get_response now m2 endpoint
            (add_response m1 endpoint response
               (add_response m2 endpoint old self)))
     = response.
Proof.
  intros Hcase. unfold get_response, add_response, key. simpl.
  rewrite Hcase, !lookup_insert_eq. auto.
Qed.

Lemma X16_added_response_is_served_witness :
  fst (get_response 0 "GET" "/users"
         (add_response "get" "/users" (JStr "hello") (__init__ ∅)))
  = JStr "hello".
Proof.
  apply (X16_added_response_is_served 0 "get" "GET" "/users" JNull).
  reflexivity.
Defined.

(** X17. For ASCII methods that hold no colon, adding a response for one
    method and endpoint does not change what is served for a pair that
    differs in the endpoint or in the method other than by the case of its
    letters. *)
Theorem X17_other_keys_untouched (now : Q) (m1 e1 m2 e2 : string)
    (response : json) (self : t) :
  is_ascii m1 = true ->
  is_ascii m2 = true ->
  has_char ":" m1 = false ->
  has_char ":" m2 = false ->
  upper m1 <> upper m2 \/ e1 <> e2 ->
  fst (get_response now m2 e2 (add_response m1 e1 response self))
  = fst (get_response now m2 e2 self).
Proof.
  intros _ _ H1 H2 Hdiff. unfold get_response, add_response. simpl.
  rewrite lookup_insert_ne.
  - now destruct (responses self !! key m2 e2).
  - intros Hkey. apply key_injective in Hkey; auto. destruct Hkey. tauto.
Qed.

Lemma X17_other_keys_untouched_witness :
  fst (get_response 0 "GET" "/users"
         (add_response "POST" "/users" (JStr "created") (__init__ ∅)))
  = not_found.
Proof.
  rewrite (X17_other_keys_untouched 0 "POST" "/users" "GET" "/users").
  - reflexivity.
  - reflexivity.
  - reflexivity.
  - reflexivity.
  - reflexivity.
  - left. discriminate.
Defined.

Lemma count_loop (method endpoint : option string) (log : list logged) :
  forall count,
    fold_left
      (fun count request =>
         if truthy method
            && negb (String.eqb (upper (log_method request))
                       (upper (default EmptyString method)))
         then count
         else if truthy endpoint
                 && negb (String.eqb (log_endpoint request)
                            (default EmptyString endpoint))
         then count
         else count + 1)
      log count
    = count + Z.of_nat (length (List.filter (counted method endpoint) log)).
Proof.
  induction log as [|r log IH]; intros count; simpl; [lia|].
  rewrite IH. unfold counted.
  destruct (truthy method), (truthy endpoint),
    (String.eqb (upper (log_method r)) (upper (default EmptyString method))),
    (String.eqb (log_endpoint r) (default EmptyString endpoint));
    simpl; lia.
Qed.

Lemma count_is_filter (method endpoint : option string) (self : t) :
  get_request_count method endpoint self
  = Z.of_nat (length (List.filter (counted method endpoint) (request_log self))).
Proof.
  unfold get_request_count.
  destruct (negb (truthy method) && negb (truthy endpoint)) eqn:E.
  - apply andb_true_iff in E. destruct E as [Em Ee].
    f_equal. f_equal. symmetry. apply filter_keep_all.
    apply List.Forall_forall. intros r _. unfold counted. now rewrite Em, Ee.
  - rewrite count_loop. lia.
Qed.

(** X18. [get_request_count(method, endpoint)] is the number of logged
    requests that match both filters, where a filter that is [None] or the
    empty string matches every request, a method matches up to the case of
    its letters and an endpoint matches when it is equal. *)
Theorem X18_count_matches_filters (method endpoint : option string) (self : t) :
  get_request_count method endpoint self
  = Z.of_nat (length (List.filter (counted method endpoint) (request_log self))).
Proof.
  unfold get_request_count.
  destruct (negb (truthy method) && negb (truthy endpoint)) eqn:Both.
  - apply andb_true_iff in Both. destruct Both as [Em Ee].
    f_equal. f_equal. symmetry. apply filter_keep_all.
    apply List.Forall_forall. intros r _. unfold counted. now rewrite Em, Ee.
  - rewrite count_loop. lia.
Qed.

(** X19. [get_response] never changes the stored responses; for a key that
    has none it answers with the 404 document; hit or miss, it logs the
    request, so every count whose filters the request matches grows by one
    and every other count stays.  [clear_log] brings every count back to 0
    and changes no answer. *)
Theorem X19_requests_are_logged (now : Q) (method endpoint : string) (self : t) :
  let answer := fst (get_response now method endpoint self) in
  let self' := snd (get_response now method endpoint self) in
  responses self' = responses self
  /\ (responses self !! key method endpoint = None -> answer = not_found)
  /\ (forall by_method by_endpoint,
        get_request_count by_method by_endpoint self'
        = get_request_count by_method by_endpoint self
          + (if counted by_method by_endpoint (mkLogged method endpoint now)
             then 1 else 0))
  /\ (forall by_method by_endpoint,
        get_request_count by_method by_endpoint (clear_log self') = 0)
  /\ (forall later m e,
        fst (get_response later m e (clear_log self'))
        = fst (get_response later m e self)).
Proof.
  cbv zeta. unfold get_response. simpl.
  split; [|split; [|split; [|split]]].
  - now destruct (responses self !! key method endpoint).
  - now intros ->.
  - intros by_method by_endpoint. rewrite !count_is_filter.
    destruct (responses self !! key method endpoint); simpl;
      rewrite List.filter_app, length_app; simpl;
      destruct (counted by_method by_endpoint _); simpl; lia.
  - intros by_method by_endpoint. rewrite count_is_filter.
    reflexivity.
  - intros later m e.
    destruct (responses self !! key method endpoint); simpl;
      now destruct (responses self !! key m e).
Qed.

End MockAPIServerSpec.

(** ** The two execution paths, when they agree *)

Module PathsSpec.
Import APIClient APIClientProps APIClientSpec.

Lemma parsers_agree (response : Response.t) :
  (contains "application/json" (content_type response) = true ->
   forall e, Response.json_ response = inl e -> exc e <> JSONDecodeError) ->
  _parse_sync_response response = _parse_response response.
Proof.
  intros Hok. unfold _parse_sync_response, _parse_response.
  destruct (contains _ _); [|reflexivity].
  destruct (Response.json_ response) as [[[|] msg]|j]; try reflexivity.
  exfalso. now apply (Hok eq_refl (Raised JSONDecodeError msg)).
Qed.

(** X20. When the transport answers a call alike whether or not it is given
    the per-attempt timeout, and no response that declares JSON fails to
    decode with a [JSONDecodeError], the execution with a session and the
    execution without one return the same envelope, leave the same limiter,
    and go through the same clock, number of transport calls, attempts,
    back-offs and limiter waits. *)
Theorem X20_paths_agree_when_bodies_decode (tr : transport) (self : t)
    (method endpoint : string) (data : option json)
    (headers : option (gmap string string)) (params : option json) (w : World) :
  (forall n rq1 rq2, tr n rq1 = tr n rq2) ->
  (forall n rq response,
      result (tr n rq) = Returns response ->
      contains "application/json" (content_type response) = true ->
      forall e, Response.json_ response = inl e -> exc e <> JSONDecodeError) ->
  let blocking := _make_request tr self method endpoint data headers params w in
  let awaited :=
    _make_request tr (__aenter__ self) method endpoint data headers params w in
  fst (fst blocking) = fst (fst awaited)
  /\ rate_limiter (snd (fst blocking)) = rate_limiter (snd (fst awaited))
  /\ clock (snd blocking) = clock (snd awaited)
  /\ calls (snd blocking) = calls (snd awaited)
  /\ skeleton (trace (snd blocking)) = skeleton (trace (snd awaited))
  /\ limiter_sleeps (trace (snd blocking)) = limiter_sleeps (trace (snd awaited)).
Proof.
  intros Halike Hdecode.
  apply (make_request_paths tr Halike).
  intros n rq response Hret. apply parsers_agree. intros Hjson e He.
  exact (Hdecode n rq response Hret Hjson e He).
Qed.

Lemma X20_paths_agree_when_bodies_decode_witness :
  let response :=
    Response.mk 200 {[ "Content-Type"%string := "application/json"%string ]}
      "[]" (inr (JArr [])) in
  let tr : transport := fun n _ =>
    if (n <? 1)%nat then Reply 1 (Raises (Raised OtherException "reset"))
    else Reply 1 (Returns response) in
  let self := APIClient.mk "http://host" 30 3 None (RateLimiter.mk 100 60 []) None ∅ in
  let w := mkWorld 0 0 [] in
  fst (fst (_make_request tr self "GET" "/a" None None None w))
  = fst (fst (_make_request tr (__aenter__ self) "GET" "/a" None None None w)).
Proof.
  intros response tr self w.
  refine (proj1 (X20_paths_agree_when_bodies_decode tr self "GET" "/a" None None None
                   w _ _)).
  - reflexivity.
  - intros n rq r Hret _ e He. unfold tr in Hret.
    destruct (n <? 1)%nat; [discriminate Hret|].
    injection Hret as <-. discriminate He.
Defined.

End PathsSpec.
